(** * AWSPipelineMonitor: a shallow embedding of [pipeline_monitor.py]

    The program is one Python class, [PipelineMonitor], that reads AWS
    credentials from the environment, asks CodePipeline for pipelines,
    executions and pipeline definitions, and prints a table.

    The embedding has three layers:
    - [Py]: the fragment of the Python runtime the program relies on
      (dynamically typed values, exceptions, [str] methods, slicing,
      [datetime] arithmetic);
    - the effects of the program (the process environment, the command
      line, the clock, the CodePipeline client, standard output) as an
      explicit state and a result-or-exception monad;
    - the methods of [PipelineMonitor], one definition per method, written
      in the order of the source.
    The vocabulary of the specification and some sample data follow, then
    the properties.

    Strings are Python [str] values restricted to code points below 256
    (one [ascii] per character, read as Latin-1); pipeline names, stage
    names and the markers the program searches for are all in that range. *)

From Stdlib Require Import ZArith Lia String Ascii DecimalString DecimalZ.
From Stdlib Require Import Sorting.Sorted Sorting.Permutation.
From stdpp Require Import gmap strings list fin_maps.

#[local] Set Warnings "-register-all".
#[local] Open Scope string_scope.

(** ** The Python runtime fragment *)

Module Py.

(** *** Exceptions and results *)

(** The exception classes the program can meet.  [ClientError] stands for
    whatever the AWS client raises (botocore errors, network errors). *)
Inductive exn : Type :=
| ValueError (msg : string)
| TypeError
| AttributeError
| KeyError
| IndexError
| ClientError (msg : string).

Inductive result (A : Type) : Type :=
| Ok (a : A)
| Raise (e : exn).
Arguments Ok {A} a.
Arguments Raise {A} e.

#[global] Instance result_ret : MRet result := λ A a, Ok a.
#[global] Instance result_bind : MBind result := λ A B k r,
  match r with
  | Ok a => k a
  | Raise e => Raise e
  end.

(** *** [str] *)

(** [str.lower()] on one character: the ASCII capitals and the Latin-1
    capitals (all of 192..222 but the multiplication sign 215) move up by
    32; every other code point below 256 is its own lower case. *)
Definition lower_char (c : ascii) : ascii :=
  let n := nat_of_ascii c in
  if ((65 <=? n) && (n <=? 90)
      || (192 <=? n) && (n <=? 222) && negb (n =? 215))%nat
  then ascii_of_nat (n + 32)
  else c.

Fixpoint lower (s : string) : string :=
  match s with
  | EmptyString => EmptyString
  | String c s' => String (lower_char c) (lower s')
  end.

(** [sub in s] for two strings: [sub] starts at some position of [s]. *)
Fixpoint contains (sub s : string) : bool :=
  String.prefix sub s
  || match s with
     | EmptyString => false
     | String _ s' => contains sub s'
     end.



Fixpoint rev_str (acc s : string) : string :=
  match s with
  | EmptyString => acc
  | String c s' => rev_str (String c acc) s'
  end.

(** [s.split(sep)] for a non-empty separator, scanning left to right.
    [skip] counts the characters of a separator just matched that are
    still to be stepped over; [cur] is the current piece, reversed. *)
Fixpoint split_go (sep : string) (skip : nat) (cur : string) (s : string)
  : list string :=
  match s with
  | EmptyString => [rev_str EmptyString cur]
  | String c s' =>
      match skip with
      | S k => split_go sep k cur s'
      | O =>
          if String.prefix sep s
          then rev_str EmptyString cur
                 :: split_go sep (String.length sep - 1) EmptyString s'
          else split_go sep 0 (String c cur) s'
      end
  end.

(** [str.split] raises [ValueError] on an empty separator. *)
Definition split (sep s : string) : result (list string) :=
  match sep with
  | EmptyString => Raise (ValueError "empty separator")
  | _ => Ok (split_go sep 0 EmptyString s)
  end.

(** Slicing [s[lo:hi]] with the default step: an omitted bound is [None];
    a negative bound counts from the end; both are clamped to the string. *)
Definition slice_bound (len : Z) (dflt : Z) (b : option Z) : Z :=
  match b with
  | None => dflt
  | Some i => if (i <? 0)%Z then Z.max (i + len) 0 else Z.min i len
  end.

Definition slice (lo hi : option Z) (s : string) : string :=
  let len := Z.of_nat (String.length s) in
  let l := slice_bound len 0 lo in
  let h := slice_bound len len hi in
  substring (Z.to_nat l) (Z.to_nat (h - l)) s.

(** [str(n)] for an [int]. *)
Definition str_of_int (n : Z) : string :=
  NilZero.string_of_int (Z.to_int n).

(** [sep.join(l)]. *)
Fixpoint join (sep : string) (l : list string) : string :=
  match l with
  | [] => EmptyString
  | [x] => x
  | x :: l' => x +:+ sep +:+ join sep l'
  end.

(** The double-quote character, and a string made of it. *)
Definition dquote : ascii := ascii_of_nat 34.
Definition q : string := String dquote EmptyString.

(** The line feed. *)
Definition nl : string := String (ascii_of_nat 10) EmptyString.


(** *** [datetime] *)

(** A [datetime] object: its calendar fields and its [tzinfo].  The
    [tzinfo] is [None] (what [datetime.now()] gives), or an object, told
    from the other [tzinfo] objects by a number, with the UTC offset it
    gives for this datetime, in microseconds ([None] when it gives none;
    boto3 returns datetimes whose [tzinfo] gives one). *)
Record datetime : Type := {
  year : Z;
  month : Z;
  day : Z;
  hour : Z;
  minute : Z;
  second : Z;
  microsecond : Z;
  tzinfo : option (nat * option Z)
}.

(** [d.utcoffset()]: a datetime is naive when there is none. *)
Definition utcoffset (d : datetime) : option Z := tzinfo d ≫= snd.

(** [a.tzinfo is b.tzinfo]. *)
Definition same_tzinfo (a b : datetime) : bool :=
  bool_decide (fst <$> tzinfo a = fst <$> tzinfo b).

Definition is_leap (y : Z) : bool :=
  ((y mod 4 =? 0) && (negb (y mod 100 =? 0) || (y mod 400 =? 0)))%Z.

Definition days_before_year (y : Z) : Z :=
  let p := (y - 1)%Z in (p * 365 + p / 4 - p / 100 + p / 400)%Z.

Definition days_before_month (y m : Z) : Z :=
  (nth (Z.to_nat m) [0; 0; 31; 59; 90; 120; 151; 181; 212; 243; 273; 304; 334] 0
   + if (2 <? m) && is_leap y then 1 else 0)%Z.

(** [d.toordinal()]: day 1 is 1 January of year 1. *)
Definition toordinal (d : datetime) : Z :=
  (days_before_year (year d) + days_before_month (year d) (month d) + day d)%Z.

(** A [timedelta], as its exact number of microseconds. *)
Definition timedelta : Type := Z.

(** [e - s] for two datetimes.  With one and the same [tzinfo] object
    (or none on either side) the calendar fields are subtracted and the
    offsets are left alone; otherwise the offsets are taken into account:
    two naive datetimes, or two aware ones, subtract; a naive and an aware
    one raise [TypeError]. *)
Definition datetime_sub (e s : datetime) : result timedelta :=
  let secs d := (second d + minute d * 60 + hour d * 3600)%Z in
  let base :=
    (((toordinal e - toordinal s) * 86400 + (secs e - secs s)) * 1000000
     + (microsecond e - microsecond s))%Z in
  if same_tzinfo e s then Ok base
  else
    match utcoffset e, utcoffset s with
    | None, None => Ok base
    | Some oe, Some os => Ok (base + os - oe)%Z
    | _, _ => Raise TypeError
    end.

(** The integer nearest to [n / d], a half going to the even side. *)
Definition round_half_even (n d : Z) : Z :=
  let q := (n / d)%Z in
  let r := (n mod d)%Z in
  if (2 * r <? d)%Z then q
  else if (d <? 2 * r)%Z then (q + 1)%Z
  else if Z.even q then q else (q + 1)%Z.

(** [int(a / b)] for two [int] with [0 <= a] and [0 < b].  The quotient
    [a / b] is a [float]: the number with 53 significant bits nearest to
    the exact quotient, a half going to the even side.  With [e] the
    exponent of the quotient (the quotient is at least [2^e] and less than
    [2^(e+1)]), that float is [m * 2^(e-52)] for the integer [m] below;
    [int] then drops its fraction.  (Quotients beyond the range of a float
    do not arise from a [timedelta], which is under [10^9] days.) *)
Definition int_true_divide (a b : Z) : Z :=
  let e0 := (Z.log2 a - Z.log2 b)%Z in
  let e := if (a * 2 ^ Z.max 0 (- e0) <? b * 2 ^ Z.max 0 e0)%Z
           then (e0 - 1)%Z else e0 in
  let m := round_half_even (a * 2 ^ Z.max 0 (52 - e)) (b * 2 ^ Z.max 0 (e - 52)) in
  if (52 <=? e)%Z then (m * 2 ^ (e - 52))%Z else (m / 2 ^ (52 - e))%Z.

(** [int(td.total_seconds())].  [total_seconds] divides the microseconds
    of [td] by [10**6] as above, and [int] rounds towards zero. *)
Definition int_total_seconds (td : timedelta) : Z :=
  (Z.sgn td * int_true_divide (Z.abs td) 1000000)%Z.

Definition pad (width : nat) (n : Z) : string :=
  let s := str_of_int n in
  string_of_list_ascii (replicate (width - String.length s) "0"%char) +:+ s.

(** [d.strftime("%d/%m/%Y %H:%M")].  Day, month, hour and minute are
    padded to two digits.  The year is written by the C library, which
    does not pad it (glibc): it has four digits from the year 1000 on. *)
Definition strftime_dmY_HM (d : datetime) : string :=
  pad 2 (day d) +:+ "/" +:+ pad 2 (month d) +:+ "/" +:+ str_of_int (year d)
  +:+ " " +:+ pad 2 (hour d) +:+ ":" +:+ pad 2 (minute d).

(** *** Dynamically typed values *)

(** The values that flow through the program: what a boto3 response is
    made of.  A [dict] has string keys; the program never depends on the
    order of its keys. *)
Inductive pyval : Type :=
| PNone
| PBool (b : bool)
| PInt (n : Z)
| PStr (s : string)
| PDatetime (d : datetime)
| PList (l : list pyval)
| PDict (d : gmap string pyval).

(** Truth value of an object ([if x], [not x]). *)
Definition truthy (v : pyval) : bool :=
  match v with
  | PNone => false
  | PBool b => b
  | PInt n => negb (n =? 0)%Z
  | PStr s => negb (String.eqb s EmptyString)
  | PDatetime _ => true
  | PList l => match l with [] => false | _ => true end
  | PDict d => negb (bool_decide (d = ∅))
  end.

(** [v.get(k, dflt)]: only a [dict] has the method. *)
Definition get (v : pyval) (k : string) (dflt : pyval) : result pyval :=
  match v with
  | PDict d => Ok (default dflt (d !! k))
  | _ => Raise AttributeError
  end.

(** [v[0]]. *)
Definition getitem0 (v : pyval) : result pyval :=
  match v with
  | PList (x :: _) => Ok x
  | PStr (String c _) => Ok (PStr (String c EmptyString))
  | PList [] | PStr EmptyString => Raise IndexError
  | PDict _ => Raise KeyError
  | _ => Raise TypeError
  end.

(** [v[k]] for a string key [k]. *)
Definition getitem (v : pyval) (k : string) : result pyval :=
  match v with
  | PDict d => match d !! k with Some x => Ok x | None => Raise KeyError end
  | _ => Raise TypeError
  end.

Definition chars (s : string) : list pyval :=
  (λ c, PStr (String c EmptyString)) <$> list_ascii_of_string s.

(** The elements [for x in v] goes through. *)
Definition iter (v : pyval) : result (list pyval) :=
  match v with
  | PList l => Ok l
  | PStr s => Ok (chars s)
  | PDict d => Ok (PStr <$> (map_to_list d).*1)
  | _ => Raise TypeError
  end.

(** [v.lower()]. *)
Definition lower_method (v : pyval) : result string :=
  match v with
  | PStr s => Ok (lower s)
  | _ => Raise AttributeError
  end.

Definition is_str (x : string) (v : pyval) : bool :=
  match v with
  | PStr s => String.eqb x s
  | _ => false
  end.

(** [x in v] for a string [x]. *)
Definition contains_op (x : string) (v : pyval) : result bool :=
  match v with
  | PStr s => Ok (contains x s)
  | PList l => Ok (existsb (is_str x) l)
  | PDict d => Ok (bool_decide (is_Some (d !! x)))
  | _ => Raise TypeError
  end.

(** [v.split(sep)]. *)
Definition split_method (v : pyval) (sep : string) : result (list string) :=
  match v with
  | PStr s => split sep s
  | _ => Raise AttributeError
  end.

(** [len(v)]. *)
Definition len (v : pyval) : result Z :=
  match v with
  | PStr s => Ok (Z.of_nat (String.length s))
  | PList l => Ok (Z.of_nat (length l))
  | PDict d => Ok (Z.of_nat (size d))
  | _ => Raise TypeError
  end.

(** [v[:n] + suffix] for a string [suffix]: a [str] is cut and extended; a
    [list] is cut and then refuses the string; a [dict] refuses the slice. *)
Definition slice_to_add (n : Z) (suffix : string) (v : pyval) : result pyval :=
  match v with
  | PStr s => Ok (PStr (slice None (Some n) s +:+ suffix))
  | _ => Raise TypeError
  end.

(** [isinstance(v, datetime)]. *)
Definition isinstance_datetime (v : pyval) : bool :=
  match v with
  | PDatetime _ => true
  | _ => false
  end.

End Py.

Import Py.

(** ** The world around the program and its effects *)

(** A CodePipeline client, as the responses of the four read operations
    the program calls.  The service is only read, so each operation is a
    function of its arguments; an operation either returns a response or
    raises. *)
Record CodePipelineClient : Type := {
  list_pipelines : result pyval;
  list_pipeline_executions : ∀ (pipelineName : string) (maxResults : Z), result pyval;
  get_pipeline_execution : ∀ (pipelineName : string) (pipelineExecutionId : pyval), result pyval;
  get_pipeline : ∀ (name : string), result pyval
}.

(** What [parser.parse_args()] (line 225) makes of the command line.  It
    returns the namespace, of which the program reads [filters]: the
    values given after [--filters], at least one ([nargs="+"]), or nothing
    when the option is not given, in which case the default of line 222
    applies.  Or it leaves the program: after a usage error, or after
    [--help], argparse writes its own message and raises [SystemExit] with
    the exit status.  [SystemExit] is not an [Exception]: an
    [except Exception] clause does not catch it. *)
Inductive parse_outcome : Type :=
| Namespace (filters : option (list string))
| SystemExit (code : Z).

(** What the program does not control: the process environment (as it is
    once [load_dotenv] has run), the command line as argparse reads it,
    the successive readings of the clock, and what [boto3.client] does:
    it returns a client, which talks to some service, or it raises (for
    instance [ValueError] on a region from which no endpoint can be
    formed). *)
Record World : Type := {
  environ : gmap string string;
  parse_args : parse_outcome;
  clock : nat → datetime;
  boto3_client :
    ∀ (service : string) (aws_access_key_id aws_secret_access_key
       aws_session_token : option string) (region_name : string),
      result CodePipelineClient
}.

(** One row of the table: the six values the source puts in a list, in
    the order of the list ([x[0]] is [pipeline]). *)
Record ReportRow : Type := {
  pipeline : string;
  branch : pyval;
  status : pyval;
  last_run : string;
  duration : string;
  commit_message : pyval
}.

(** What is written to standard output: a line of text, an error line
    (its text up to the exception, then the exception whose [str] ends the
    line), or the table given to [tabulate]. *)
Inductive Output : Type :=
| OutLine (text : string)
| OutError (text : string) (e : exn)
| OutTable (headers : list string) (rows : list ReportRow).

(** The observable events of a run, oldest first. *)
Inductive Event : Type :=
| ClientCreated (service region_name : string)
| ApiCall (operation : string) (pipelineName : option string)
| Printed (o : Output).

Record State : Type := {
  ticks : nat;
  trace : list Event
}.

(** Computations: they read and extend the state, and return or raise. *)
Definition M (A : Type) : Type := State → result A * State.

#[global] Instance M_ret : MRet M := λ A a st, (Ok a, st).
#[global] Instance M_bind : MBind M := λ A B k m st,
  match m st with
  | (Ok a, st') => k a st'
  | (Raise e, st') => (Raise e, st')
  end.

Definition lift {A} (r : result A) : M A := λ st, (r, st).

Definition raise {A} (e : exn) : M A := lift (Raise e).

(** [try: body except Exception as e: handler e]. *)
Definition try_except {A} (body : M A) (handler : exn → M A) : M A := λ st,
  match body st with
  | (Ok a, st') => (Ok a, st')
  | (Raise e, st') => handler e st'
  end.

Definition emit (ev : Event) : M unit := λ st,
  (Ok tt, {| ticks := ticks st; trace := trace st ++ [ev] |}).

Definition print (o : Output) : M unit := emit (Printed o).

(** A call to the service: the call is recorded, then answered. *)
Definition call {A} (operation : string) (pipelineName : option string)
    (answer : result A) : M A :=
  _ ← emit (ApiCall operation pipelineName); lift answer.

Definition naive (d : datetime) : datetime :=
  {| year := year d; month := month d; day := day d; hour := hour d;
     minute := minute d; second := second d; microsecond := microsecond d;
     tzinfo := None |}.

(** [datetime.now()]: the next reading of the clock, without a time zone. *)
Definition now (w : World) : M datetime := λ st,
  (Ok (naive (clock w (ticks st))),
   {| ticks := S (ticks st); trace := trace st |}).

(** ** [class PipelineMonitor] *)

Record PipelineMonitor : Type := {
  aws_access_key_id : option string;
  aws_secret_access_key : option string;
  aws_session_token : option string;
  aws_region : string;
  name_filters : list string;
  codepipeline : CodePipelineClient
}.

(** Truth value of what [os.getenv] returns: [None] and the empty string
    are false. *)
Definition getenv_truthy (v : option string) : bool :=
  match v with
  | None => false
  | Some s => truthy (PStr s)
  end.

(** [PipelineMonitor.__init__] (lines 13-35).  The client is recorded
    as created once [boto3.client] has returned it. *)
Definition __init__ (w : World) (filters : list string) : M PipelineMonitor :=
  let key_id := environ w !! "AWS_ACCESS_KEY_ID" in
  let secret := environ w !! "AWS_SECRET_ACCESS_KEY" in
  let token := environ w !! "AWS_SESSION_TOKEN" in
  let region := default "eu-west-1" (environ w !! "AWS_REGION") in
  let filters := lower <$> filters in
  if negb (forallb getenv_truthy [key_id; secret; token])
  then raise (ValueError "AWS credentials not found in environment variables")
  else
    client ← lift (boto3_client w "codepipeline" key_id secret token region);
    _ ← emit (ClientCreated "codepipeline" region);
    mret {| aws_access_key_id := key_id;
            aws_secret_access_key := secret;
            aws_session_token := token;
            aws_region := region;
            name_filters := filters;
            codepipeline := client |}.

(** [get_latest_execution] (lines 37-50). *)
Definition get_latest_execution (self : PipelineMonitor) (pipeline_name : string)
  : M pyval :=
  try_except
    (response ← call "list_pipeline_executions" (Some pipeline_name)
        (list_pipeline_executions (codepipeline self) pipeline_name 1);
     executions ← lift (get response "pipelineExecutionSummaries" (PList []));
     if truthy executions then lift (getitem0 executions) else mret PNone)
    (λ e,
     _ ← print (OutError ("Error getting latest execution for pipeline "
                          +:+ pipeline_name +:+ ": ") e);
     mret PNone).

(** The text searched for in a revision summary (CommitMessage, a double
    quote, a colon, a double quote), and the text the summary is split on
    (the same without the last double quote). *)
Definition commit_marker : string := "CommitMessage" +:+ q +:+ ":" +:+ q.
Definition commit_separator : string := "CommitMessage" +:+ q +:+ ":".

(** [l[1]] for a list of strings. *)
Definition item1 (l : list string) : result string :=
  match l !! 1%nat with
  | Some x => Ok x
  | None => Raise IndexError
  end.

(** The loop of [get_commit_message] over the artifact revisions (lines
    64-77): the first revision whose name has no helm in it decides. *)
Fixpoint scan_revisions (revisions : list pyval) : result pyval :=
  match revisions with
  | [] => Ok (PStr "Unknown")
  | stage :: rest =>
      name ← get stage "name" (PStr EmptyString);
      name ← lower_method name;
      if negb (contains "helm" name) then
        revision_summary ← get stage "revisionSummary" (PStr EmptyString);
        has_marker ← contains_op commit_marker revision_summary;
        if has_marker : bool then
          parts ← split_method revision_summary commit_separator;
          part ← item1 parts;
          Ok (PStr (slice (Some 1%Z) (Some (-2)%Z) part))
        else Ok revision_summary
      else scan_revisions rest
  end.

(** [get_commit_message] (lines 52-82). *)
Definition get_commit_message (self : PipelineMonitor) (pipeline_name : string)
    (execution_id : pyval) : M pyval :=
  try_except
    (response ← call "get_pipeline_execution" (Some pipeline_name)
        (get_pipeline_execution (codepipeline self) pipeline_name execution_id);
     execution ← lift (get response "pipelineExecution" (PDict ∅));
     if negb (truthy execution) then mret (PStr "Unknown")
     else
       revisions ← lift (get execution "artifactRevisions" (PList []) ≫= iter);
       lift (scan_revisions revisions))
    (λ e,
     _ ← print (OutError ("Error getting commit message for pipeline "
                          +:+ pipeline_name +:+ ": ") e);
     mret (PStr "Unknown")).

(** The inner loop of [get_pipeline_branch] over the actions of a source
    stage (lines 95-101): [Some branch] when the loop returns, [None] when
    it runs to its end. *)
Fixpoint scan_actions (actions : list pyval) : result (option pyval) :=
  match actions with
  | [] => Ok None
  | action :: rest =>
      configuration ← get action "configuration" (PDict ∅);
      branch ← get configuration "BranchName" PNone;
      if truthy branch then Ok (Some branch) else scan_actions rest
  end.

(** The outer loop of [get_pipeline_branch] over the stages (lines 92-103). *)
Fixpoint scan_stages (stages : list pyval) : result pyval :=
  match stages with
  | [] => Ok (PStr "Unknown")
  | stage :: rest =>
      name ← get stage "name" (PStr EmptyString);
      name ← lower_method name;
      if String.eqb name "source" then
        actions ← get stage "actions" (PList []) ≫= iter;
        found ← scan_actions actions;
        match found with
        | Some branch => Ok branch
        | None => scan_stages rest
        end
      else scan_stages rest
  end.

(** [get_pipeline_branch] (lines 84-106). *)
Definition get_pipeline_branch (self : PipelineMonitor) (pipeline_name : string)
  : M pyval :=
  try_except
    (response ← call "get_pipeline" (Some pipeline_name)
        (get_pipeline (codepipeline self) pipeline_name);
     pipeline ← lift (get response "pipeline" (PDict ∅));
     stages ← lift (get pipeline "stages" (PList []) ≫= iter);
     lift (scan_stages stages))
    (λ e,
     _ ← print (OutError ("Error getting branch for pipeline "
                          +:+ pipeline_name +:+ ": ") e);
     mret (PStr "Unknown")).

(** The rendering at the end of [format_duration] (lines 115-124), from
    the whole seconds.  [/] and [mod] on [Z] round as Python's [//] and
    [%] do: towards minus infinity, the remainder having the sign of the
    divisor. *)
Definition render_duration (total_seconds : Z) : string :=
  let hours := (total_seconds / 3600)%Z in
  let minutes := ((total_seconds mod 3600) / 60)%Z in
  let seconds := (total_seconds mod 60)%Z in
  if (0 <? hours)%Z then
    str_of_int hours +:+ "h " +:+ str_of_int minutes +:+ "m"
  else if (0 <? minutes)%Z then
    str_of_int minutes +:+ "m " +:+ str_of_int seconds +:+ "s"
  else
    str_of_int seconds +:+ "s".

(** [format_duration] (lines 108-124).  [end_time] is [None] when the
    argument is left out; a [datetime] is never false. *)
Definition format_duration (w : World) (start_time : datetime)
    (end_time : option datetime) : M string :=
  end_time ← match end_time with
             | None => now w
             | Some e => mret e
             end;
  duration ← lift (datetime_sub end_time start_time);
  let total_seconds := int_total_seconds duration in
  mret (render_duration total_seconds).

(** [format_date] (lines 126-128); the argument arrives unchecked. *)
Definition format_date (date : pyval) : result string :=
  match date with
  | PDatetime d => Ok (strftime_dmY_HM d)
  | _ => Raise AttributeError
  end.

(** The first comprehension of [list_all_pipelines] (lines 134-136). *)
Fixpoint pipeline_names (pipelines : list pyval) : result (list pyval) :=
  match pipelines with
  | [] => Ok []
  | pipeline :: rest =>
      name ← getitem pipeline "name";
      names ← pipeline_names rest;
      Ok (name :: names)
  end.

(** [any(f in pipeline.lower() for f in filters)]: the generator calls
    [lower] once per filter, so not at all when there is no filter. *)
Fixpoint any_filter (filters : list string) (pipeline : pyval) : result bool :=
  match filters with
  | [] => Ok false
  | f :: rest =>
      name ← lower_method pipeline;
      if contains f name then Ok true else any_filter rest pipeline
  end.

(** The second comprehension of [list_all_pipelines] (lines 138-142).  A
    name that is kept has answered [lower], so it is a string. *)
Fixpoint matching_pipelines (filters : list string) (all_pipelines : list pyval)
  : result (list string) :=
  match all_pipelines with
  | [] => Ok []
  | pipeline :: rest =>
      keep ← any_filter filters pipeline;
      kept ← matching_pipelines filters rest;
      match pipeline with
      | PStr name => Ok (if keep : bool then name :: kept else kept)
      | _ => Ok kept
      end
  end.

(** [list_all_pipelines] (lines 130-145). *)
Definition list_all_pipelines (self : PipelineMonitor) : M (list string) :=
  try_except
    (response ← call "list_pipelines" None (list_pipelines (codepipeline self));
     pipelines ← lift (get response "pipelines" (PList []) ≫= iter);
     all_pipelines ← lift (pipeline_names pipelines);
     lift (matching_pipelines (name_filters self) all_pipelines))
    (λ e,
     _ ← print (OutError "Error listing pipelines: " e);
     mret []).

(** Lines 197-199 of [monitor_pipelines]: a commit message of more than 50
    characters is cut to 50 and given three dots. *)
Definition truncate_commit_message (commit_message : pyval) : result pyval :=
  n ← len commit_message;
  if (50 <? n)%Z then slice_to_add 50 "..." commit_message
  else Ok commit_message.

(** The body of the loop of [monitor_pipelines] for one pipeline (lines
    174-203): [None] when the loop continues without a row.  The default
    of each of the two [get] on a timestamp is computed before the call,
    so the clock is read twice, in that order, whatever the summary holds. *)
Definition pipeline_row (w : World) (self : PipelineMonitor) (pipeline : string)
  : M (option ReportRow) :=
  execution ← get_latest_execution self pipeline;
  if negb (truthy execution) then mret None
  else
    status ← lift (get execution "status" (PStr "UNKNOWN"));
    execution_id ← lift (get execution "pipelineExecutionId" (PStr EmptyString));
    now_start ← now w;
    start_time ← lift (get execution "startTime" (PDatetime now_start));
    now_update ← now w;
    last_update_time ← lift (get execution "lastUpdateTime" (PDatetime now_update));
    last_run ← lift (format_date start_time);
    duration ← match start_time, last_update_time with
               | PDatetime s, PDatetime e => format_duration w s (Some e)
               | _, _ => mret "Unknown"
               end;
    branch ← get_pipeline_branch self pipeline;
    commit_message ← get_commit_message self pipeline execution_id;
    commit_message ← lift (truncate_commit_message commit_message);
    mret (Some {| pipeline := pipeline;
                  branch := branch;
                  status := status;
                  last_run := last_run;
                  duration := duration;
                  commit_message := commit_message |}).

(** The loop of [monitor_pipelines] (line 173): rows are appended to
    [table_data] in the order the pipelines are gone through. *)
Fixpoint collect_rows (w : World) (self : PipelineMonitor)
    (pipelines : list string) (table_data : list ReportRow)
  : M (list ReportRow) :=
  match pipelines with
  | [] => mret table_data
  | pipeline :: rest =>
      row ← pipeline_row w self pipeline;
      collect_rows w self rest
        (match row with
         | Some r => table_data ++ [r]
         | None => table_data
         end)
  end.

(** [table_data.sort(key=lambda x: x[0])] (line 206).  [list.sort] is
    stable and compares the keys, here strings, character by character;
    the stable sort of a list is unique, and insertion from the right,
    each row going before the first row whose key is not smaller, is one. *)
Fixpoint insert_row (r : ReportRow) (sorted : list ReportRow) : list ReportRow :=
  match sorted with
  | [] => [r]
  | r' :: rest =>
      if String.leb (pipeline r) (pipeline r') then r :: sorted
      else r' :: insert_row r rest
  end.

Fixpoint sort_rows (table_data : list ReportRow) : list ReportRow :=
  match table_data with
  | [] => []
  | r :: rest => insert_row r (sort_rows rest)
  end.

Definition headers : list string :=
  ["Pipeline"; "Branch"; "Status"; "Last Run"; "Duration"; "Commit Message"].

(** [monitor_pipelines] (lines 147-210). *)
Definition monitor_pipelines (w : World) (self : PipelineMonitor) : M unit :=
  _ ← print (OutLine (nl +:+ "=== AWS CodePipeline Deployment Monitor ==="));
  today ← now w;
  today ← lift (format_date (PDatetime today));
  _ ← print (OutLine ("Last updated: " +:+ today));
  _ ← print (OutLine ("Filtering pipelines containing: "
                      +:+ join ", " (name_filters self) +:+ nl));
  pipelines ← list_all_pipelines self;
  match pipelines with
  | [] =>
      print (OutLine ("No pipelines found containing any of: "
                      +:+ join ", " (name_filters self)))
  | _ =>
      table_data ← collect_rows w self pipelines [];
      let table_data := sort_rows table_data in
      _ ← print (OutTable headers table_data);
      print (OutLine EmptyString)
  end.

(** How the script ends: its [try] statement is left normally (by the
    body or by the handler) or by an exception, or [SystemExit] ends the
    program with an exit status. *)
Inductive script_outcome : Type :=
| Completed (r : result unit)
| Exited (code : Z).

(** The [except Exception] clause of the script (lines 229-234). *)
Definition report_error (e : exn) : M unit :=
  _ ← print (OutError "Error: " e);
  _ ← print (OutLine (nl +:+ "Please ensure you have set the following environment variables:"));
  _ ← print (OutLine "AWS_ACCESS_KEY_ID");
  _ ← print (OutLine "AWS_SECRET_ACCESS_KEY");
  print (OutLine "AWS_SESSION_TOKEN").

(** The script (lines 213-234).  [parse_args] is the first thing in the
    [try] that can leave it; the [SystemExit] it raises passes the
    [except Exception] clause. *)
Definition main (w : World) (st : State) : script_outcome * State :=
  match parse_args w with
  | SystemExit code => (Exited code, st)
  | Namespace filters =>
      let filters := default ["kulu"] filters in
      let (r, st') :=
        try_except
          (monitor ← __init__ w filters;
           monitor_pipelines w monitor)
          report_error st in
      (Completed r, st')
  end.

(** The tables printed in a trace, oldest first. *)
Definition tables (tr : list Event) : list (list ReportRow) :=
  omap (λ ev, match ev with
              | Printed (OutTable _ rows) => Some rows
              | _ => None
              end) tr.

Definition initial : State := {| ticks := 0; trace := [] |}.

(** ** Vocabulary of the specification *)

(** The number of seconds a rendered duration stands for: each run of
    digits counts in the unit that follows it (h, m or s). *)
Definition digit_of (c : ascii) : option Z :=
  let n := nat_of_ascii c in
  if ((48 <=? n) && (n <=? 57))%nat then Some (Z.of_nat (n - 48)) else None.

Fixpoint read_duration (s : string) (acc total : Z) : option Z :=
  match s with
  | EmptyString => Some total
  | String c s' =>
      match digit_of c with
      | Some d => read_duration s' (10 * acc + d) total
      | None =>
          if Ascii.eqb c "h" then read_duration s' 0 (total + 3600 * acc)
          else if Ascii.eqb c "m" then read_duration s' 0 (total + 60 * acc)
          else if Ascii.eqb c "s" then read_duration s' 0 (total + acc)
          else if Ascii.eqb c " " then read_duration s' acc total
          else None
      end
  end%Z.

Definition displayed_seconds (s : string) : option Z := read_duration s 0 0.

(** The value of a decimal numeral read from the left. *)
Fixpoint uint_acc (d : Decimal.uint) (acc : Z) : Z :=
  match d with
  | Decimal.Nil => acc
  | Decimal.D0 l => uint_acc l (10 * acc + 0)
  | Decimal.D1 l => uint_acc l (10 * acc + 1)
  | Decimal.D2 l => uint_acc l (10 * acc + 2)
  | Decimal.D3 l => uint_acc l (10 * acc + 3)
  | Decimal.D4 l => uint_acc l (10 * acc + 4)
  | Decimal.D5 l => uint_acc l (10 * acc + 5)
  | Decimal.D6 l => uint_acc l (10 * acc + 6)
  | Decimal.D7 l => uint_acc l (10 * acc + 7)
  | Decimal.D8 l => uint_acc l (10 * acc + 8)
  | Decimal.D9 l => uint_acc l (10 * acc + 9)
  end%Z.

(** Two timestamps can be subtracted when both are naive or both aware. *)
Definition same_awareness (a b : datetime) : Prop :=
  utcoffset a = None ↔ utcoffset b = None.

(** [x] occurs in [s]: some text, then [x], then some text. *)
Definition occurs_in (x s : string) : Prop :=
  ∃ before after, s = before +:+ x +:+ after.

(** The entries of a [list_pipelines] response carry these names. *)
Definition pipelines_named (entries : list pyval) (names : list string) : Prop :=
  Forall2 (λ entry name, ∃ d, entry = PDict d ∧ d !! "name" = Some (PStr name))
    entries names.

(** A credential is missing when the variable is unset or empty. *)
Definition missing (v : option string) : Prop := v = None ∨ v = Some EmptyString.

(** Lexicographic order on strings, character by character by code point. *)
Inductive lex_le : string → string → Prop :=
| lex_le_nil s : lex_le EmptyString s
| lex_le_lt c1 c2 s1 s2 :
    (N_of_ascii c1 < N_of_ascii c2)%N → lex_le (String c1 s1) (String c2 s2)
| lex_le_eq c s1 s2 : lex_le s1 s2 → lex_le (String c s1) (String c s2).

(** Rows in ascending order of pipeline name: each row is at or before
    every later row. *)
Definition ascending (rows : list ReportRow) : Prop :=
  StronglySorted (λ a b, lex_le (pipeline a) (pipeline b)) rows.

(** No two different rows carry the same pipeline name. *)
Definition names_identify (rows : list ReportRow) : Prop :=
  ∀ a b, a ∈ rows → b ∈ rows → pipeline a = pipeline b → a = b.

(** A computation that prints no table. *)
Definition quiet {A} (m : M A) : Prop :=
  ∀ st r st', m st = (r, st') → tables (trace st') = tables (trace st).

(** The pipeline has no latest execution: the call that lists its
    executions fails, or returns no summary. *)
Definition no_latest_execution (self : PipelineMonitor) (name : string) : Prop :=
  (∃ e, list_pipeline_executions (codepipeline self) name 1 = Raise e)
  ∨ (∃ response,
       list_pipeline_executions (codepipeline self) name 1 = Ok (PDict response)
       ∧ (response !! "pipelineExecutionSummaries" = None
          ∨ response !! "pipelineExecutionSummaries" = Some (PList []))).

(** A pipeline definition as the specification describes it: an ordered
    list of stages, each with a name and an ordered list of actions, each
    action with a configuration from strings to strings. *)
Record ActionDecl : Type := { action_configuration : gmap string string }.
Record StageDecl : Type := { stage_name : string; stage_actions : list ActionDecl }.

(** A value of a [get_pipeline] response stands for an action, a stage, a
    definition.  Other keys may be there; an action may have no
    configuration at all when the declaration has an empty one. *)
Definition represents_action (v : pyval) (a : ActionDecl) : Prop :=
  ∃ d, v = PDict d
       ∧ ((d !! "configuration" = None ∧ action_configuration a = ∅)
          ∨ ∃ c, d !! "configuration" = Some (PDict c)
                 ∧ ∀ k, c !! k = PStr <$> (action_configuration a !! k)).

Definition represents_stage (v : pyval) (s : StageDecl) : Prop :=
  ∃ d actions,
    v = PDict d
    ∧ d !! "name" = Some (PStr (stage_name s))
    ∧ d !! "actions" = Some (PList actions)
    ∧ Forall2 represents_action actions (stage_actions s).

Definition represents_pipeline (response : pyval) (stages : list StageDecl) : Prop :=
  ∃ r p vs,
    response = PDict r
    ∧ r !! "pipeline" = Some (PDict p)
    ∧ p !! "stages" = Some (PList vs)
    ∧ Forall2 represents_stage vs stages.

(** The branch an action names, when it names one that is not empty. *)
Definition branch_of (a : ActionDecl) : option string :=
  match action_configuration a !! "BranchName" with
  | Some b => if decide (b = EmptyString) then None else Some b
  | None => None
  end.

(** The source branch in the words of the specification: the branch of
    the first action, among the actions of the stages named source
    whatever the case, that has a branch name that is not empty; Unknown
    when there is none. *)
Definition source_branch_spec (stages : list StageDecl) : string :=
  let source_stages := filter (λ s, lower (stage_name s) = "source") stages in
  let source_actions := concat (stage_actions <$> source_stages) in
  default "Unknown" (head (omap branch_of source_actions)).




(** A computation that returns [a] whatever the state it starts in. *)
Definition returns {A} (m : M A) (a : A) : Prop :=
  ∀ st, ∃ st', m st = (Ok a, st').

(** A computation that does not read the clock. *)
Definition timeless {A} (m : M A) : Prop :=
  ∀ st r st', m st = (r, st') → ticks st' = ticks st.

(** A timestamp field of an execution summary that is absent, or holds a
    naive datetime. *)
Definition absent_or_naive (field : option pyval) : Prop :=
  field = None ∨ ∃ t, field = Some (PDatetime t) ∧ utcoffset t = None.

(** A timestamp field that is absent, or holds a naive datetime, or holds
    something that is not a datetime. *)
Definition absent_or_naive_or_other (field : option pyval) : Prop :=
  field = None ∨ ∃ v, field = Some v ∧ ∀ t, v = PDatetime t → utcoffset t = None.

(** The last character of a string. *)
Fixpoint last_char (s : string) : option ascii :=
  match s with
  | EmptyString => None
  | String c EmptyString => Some c
  | String _ s' => last_char s'
  end.

(** ** Sample data *)

(** A time of day on 1 March 2024, naive or with the UTC offset given by
    one [tzinfo] object. *)
Definition on_1_march (h mi s : Z) (off : option Z) : datetime :=
  {| year := 2024; month := 3; day := 1; hour := h; minute := mi;
     second := s; microsecond := 0;
     tzinfo := (λ o, (0%nat, Some o)) <$> off |}.

(** A client of a service that answers nothing. *)
Definition silent_client : CodePipelineClient :=
  {| list_pipelines := Raise (ClientError "unreachable");
     list_pipeline_executions := λ _ _, Raise (ClientError "unreachable");
     get_pipeline_execution := λ _ _, Raise (ClientError "unreachable");
     get_pipeline := λ _, Raise (ClientError "unreachable") |}.

(** A world with no credentials, whose clock reads 09:00, 09:01, ... *)
Definition bare_world : World :=
  {| environ := ∅;
     parse_args := Namespace None;
     clock := λ n, on_1_march 9 (Z.of_nat n) 0 None;
     boto3_client := λ _ _ _ _ _, Ok silent_client |}.

(** The summary of a revision whose commit message is [msg], as
    CodePipeline writes it. *)
Definition summary_of (msg : string) : string :=
  "{" +:+ q +:+ commit_marker +:+ msg +:+ q +:+ "}".

Definition entry (name : string) : pyval := PDict {["name" := PStr name]}.

(** A service with four pipelines.  [kulu-web] has a complete latest
    execution, [kulu-api] one without timestamps, [kulu-batch] has never
    run; each builds from the branch main, and the revisions of an
    execution are a helm chart and the commit with message fix bug. *)
Definition sample_names : list string :=
  ["kulu-web"; "other-svc"; "Kulu-API"; "kulu-batch"].

Definition sample_client : CodePipelineClient :=
  {| list_pipelines := Ok (PDict {["pipelines" := PList (entry <$> sample_names)]});
     list_pipeline_executions := λ name _,
       if String.eqb name "kulu-web" then
         Ok (PDict {["pipelineExecutionSummaries" :=
               PList [PDict (<["pipelineExecutionId" := PStr "e-1"]>
                            (<["status" := PStr "Succeeded"]>
                            (<["startTime" := PDatetime (on_1_march 8 0 0 (Some 0%Z))]>
                            {["lastUpdateTime" := PDatetime (on_1_march 8 2 5 (Some 0%Z))]})))]]})
       else if String.eqb name "Kulu-API" then
         Ok (PDict {["pipelineExecutionSummaries" :=
               PList [PDict (<["pipelineExecutionId" := PStr "e-2"]>
                            {["status" := PStr "InProgress"]})]]})
       else Ok (PDict {["pipelineExecutionSummaries" := PList []]});
     get_pipeline_execution := λ _ _,
       Ok (PDict {["pipelineExecution" :=
             PDict {["artifactRevisions" :=
               PList [PDict (<["name" := PStr "HelmChart"]>
                            {["revisionSummary" := PStr "chart 1.2"]});
                      PDict (<["name" := PStr "SourceArtifact"]>
                            {["revisionSummary" := PStr (summary_of "fix bug")]})]]}]});
     get_pipeline := λ _,
       Ok (PDict {["pipeline" :=
             PDict {["stages" :=
               PList [PDict (<["name" := PStr "Source"]>
                            {["actions" :=
                               PList [PDict {["configuration" :=
                                        PDict {["BranchName" := PStr "main"]}]}]]});
                      PDict (<["name" := PStr "Deploy"]>
                            {["actions" := PList []]})]]}]}) |}.

(** A world with the three credentials set, talking to that service,
    where the script is run with the filter KULU. *)
Definition sample_world : World :=
  {| environ := <["AWS_ACCESS_KEY_ID" := "AKIA"]>
                (<["AWS_SECRET_ACCESS_KEY" := "secret"]>
                {["AWS_SESSION_TOKEN" := "token"]});
     parse_args := Namespace (Some ["KULU"]);
     clock := λ n, on_1_march 9 (Z.of_nat n) 0 None;
     boto3_client := λ _ _ _ _ _, Ok sample_client |}.

(** The monitor [__init__] builds in that world for the filter KULU. *)
Definition sample_monitor : PipelineMonitor :=
  {| aws_access_key_id := Some "AKIA";
     aws_secret_access_key := Some "secret";
     aws_session_token := Some "token";
     aws_region := "eu-west-1";
     name_filters := ["kulu"];
     codepipeline := sample_client |}.

(** The same world with an empty session token. *)
Definition no_token_world : World :=
  {| environ := <["AWS_SESSION_TOKEN" := EmptyString]> (environ sample_world);
     parse_args := Namespace None;
     clock := clock sample_world;
     boto3_client := boto3_client sample_world |}.

(** The world of the sample with an empty [AWS_REGION], where
    [boto3.client] finds no endpoint for the region, as botocore does. *)
Definition empty_region_world : World :=
  {| environ := <["AWS_REGION" := EmptyString]> (environ sample_world);
     parse_args := parse_args sample_world;
     clock := clock sample_world;
     boto3_client := λ _ _ _ _ region_name,
       if String.eqb region_name EmptyString
       then Raise (ValueError "Invalid endpoint: https://codepipeline..amazonaws.com")
       else Ok sample_client |}.

(** The world of the sample when the script is run with [--filters] and
    no value: argparse reports the usage error and exits with status 2. *)
Definition usage_error_world : World :=
  {| environ := environ sample_world;
     parse_args := SystemExit 2;
     clock := clock sample_world;
     boto3_client := boto3_client sample_world |}.

(** A commit message of 60 characters. *)
Definition long_message : string :=
  "Refactor the deployment templates and bump chart versions on".

(** The table a run prints in [sample_world] for the filter KULU. *)
Definition sample_table : list ReportRow :=
  [ {| pipeline := "Kulu-API"; branch := PStr "main"; status := PStr "InProgress";
       last_run := "01/03/2024 09:03"; duration := "1m 0s";
       commit_message := PStr "fix bug" |};
    {| pipeline := "kulu-web"; branch := PStr "main"; status := PStr "Succeeded";
       last_run := "01/03/2024 08:00"; duration := "2m 5s";
       commit_message := PStr "fix bug" |} ].

(** The definition [sample_client] returns for every pipeline. *)
Definition sample_stages : list StageDecl :=
  [ {| stage_name := "Source";
       stage_actions := [ {| action_configuration := {["BranchName" := "main"]} |} ] |};
    {| stage_name := "Deploy"; stage_actions := [] |} ].

(** A service with unusual latest executions: the summary of [bare] has
    no field at all, the summary of [half] has an aware start time as boto3
    returns it and no update time. *)
Definition odd_client : CodePipelineClient :=
  {| list_pipelines :=
       Ok (PDict {["pipelines" := PList [entry "bare"; entry "half"]]});
     list_pipeline_executions := λ name _,
       if String.eqb name "bare" then
         Ok (PDict {["pipelineExecutionSummaries" := PList [PDict ∅]]})
       else
         Ok (PDict {["pipelineExecutionSummaries" :=
               PList [PDict (<["status" := PStr "InProgress"]>
                            {["startTime" :=
                                PDatetime (on_1_march 8 0 0 (Some 0%Z))]})]]});
     get_pipeline_execution := get_pipeline_execution sample_client;
     get_pipeline := get_pipeline sample_client |}.

Definition odd_monitor : PipelineMonitor :=
  {| aws_access_key_id := Some "AKIA";
     aws_secret_access_key := Some "secret";
     aws_session_token := Some "token";
     aws_region := "eu-west-1";
     name_filters := ["a"];
     codepipeline := odd_client |}.




(** ** Vocabulary for further properties *)

(** The calls to the service in a trace, oldest first. *)
Definition api_calls (tr : list Event) : list (string * option string) :=
  omap (λ ev, match ev with
              | ApiCall operation name => Some (operation, name)
              | _ => None
              end) tr.

(** A computation that, in every state, returns without raising, having
    made the one call [operation] and printed nothing or one error line
    that starts with [text]. *)
Definition one_call_logged {A} (operation : string) (name : option string)
    (text : string) (m : M A) : Prop :=
  ∀ st, ∃ v out,
    m st = (Ok v, {| ticks := ticks st;
                     trace := trace st ++ ApiCall operation name :: out |})
    ∧ (out = [] ∨ ∃ e, out = [Printed (OutError text e)]).

(** A computation whose events all satisfy [φ]. *)
Definition emits_only {A} (φ : Event → Prop) (m : M A) : Prop :=
  ∀ st r st', m st = (r, st') →
    ∃ evs, trace st' = (trace st ++ evs)%list ∧ Forall φ evs.

(** The name contains one of the filters of the monitor, whatever the
    case of the name. *)
Definition matches (self : PipelineMonitor) (name : string) : Prop :=
  ∃ f, f ∈ name_filters self ∧ occurs_in f (lower name).

(** An event that says nothing of a pipeline that does not match: a call
    names a matching pipeline, or none; a table has rows of matching
    pipelines only. *)
Definition about_matching (self : PipelineMonitor) (ev : Event) : Prop :=
  match ev with
  | ApiCall _ (Some name) => matches self name
  | Printed (OutTable _ rows) => Forall (λ r, matches self (pipeline r)) rows
  | _ => True
  end.

(** The three calls the loop can make for one pipeline, in their order. *)
Definition listing_call (name : string) : string * option string :=
  ("list_pipeline_executions", Some name).
Definition definition_call (name : string) : string * option string :=
  ("get_pipeline", Some name).
Definition detail_call (name : string) : string * option string :=
  ("get_pipeline_execution", Some name).

(** The calls that go with each outcome of the loop body for [name]: the
    three calls for a row, the first for a pipeline that is skipped, the
    first or the three when the body raises. *)
Definition calls_for_outcome (name : string) (r : result (option ReportRow))
    (calls : list (string * option string)) : Prop :=
  match r with
  | Ok (Some _) =>
      calls = [listing_call name; definition_call name; detail_call name]
  | Ok None => calls = [listing_call name]
  | Raise _ =>
      calls = [listing_call name]
      ∨ calls = [listing_call name; definition_call name; detail_call name]
  end.

(** A listing with an entry that has no name, and a service that
    returns it. *)
Definition nameless_listing : gmap string pyval :=
  {["pipelines" := PList [entry "kulu-web"; PDict {["created" := PInt 7]}]]}.

Definition nameless_monitor : PipelineMonitor :=
  {| aws_access_key_id := Some "AKIA";
     aws_secret_access_key := Some "secret";
     aws_session_token := Some "token";
     aws_region := "eu-west-1";
     name_filters := ["kulu"];
     codepipeline :=
       {| list_pipelines := Ok (PDict nameless_listing);
          list_pipeline_executions := list_pipeline_executions sample_client;
          get_pipeline_execution := get_pipeline_execution sample_client;
          get_pipeline := get_pipeline sample_client |} |}.

(** The lines [main] prints after an error. *)
Definition credentials_hint : list Event :=
  [Printed (OutLine (nl +:+ "Please ensure you have set the following environment variables:"));
   Printed (OutLine "AWS_ACCESS_KEY_ID");
   Printed (OutLine "AWS_SECRET_ACCESS_KEY");
   Printed (OutLine "AWS_SESSION_TOKEN")].

(** The three lines [monitor_pipelines] starts with, given the reading of
    the clock. *)
Definition banner (self : PipelineMonitor) (today : datetime) : list Event :=
  [Printed (OutLine (nl +:+ "=== AWS CodePipeline Deployment Monitor ==="));
   Printed (OutLine ("Last updated: " +:+ strftime_dmY_HM today));
   Printed (OutLine ("Filtering pipelines containing: "
                     +:+ join ", " (name_filters self) +:+ nl))].

(** One timestamp of the summary is an aware datetime and the other is
    absent. *)
Definition half_aware (d : gmap string pyval) : Prop :=
  (∃ s, d !! "startTime" = Some (PDatetime s) ∧ utcoffset s ≠ None
        ∧ d !! "lastUpdateTime" = None)
  ∨ (∃ e, d !! "startTime" = None
          ∧ d !! "lastUpdateTime" = Some (PDatetime e) ∧ utcoffset e ≠ None).

(** What [get_latest_execution] returns for a pipeline; it does not
    depend on the state. *)
Definition latest_execution_value (self : PipelineMonitor) (name : string) : pyval :=
  match (get_latest_execution self name initial).1 with
  | Ok v => v
  | Raise _ => PNone
  end.

(** The pipeline has a latest execution the loop does not skip. *)
Definition has_latest_execution (self : PipelineMonitor) (name : string) : bool :=
  truthy (latest_execution_value self name).

(** * Properties *)

(** ** The result and state monads *)

Lemma M_bind_ok {A B} (m : M A) (k : A → M B) st a st' :
  m st = (Ok a, st') → (m ≫= k) st = k a st'.
Proof. intros H. unfold mbind, M_bind. by rewrite H. Qed.

(** ** Decimal numerals *)

Lemma uint_acc_pos d a : uint_acc d (Z.pos a) = Z.pos (Pos.of_uint_acc d a).
Proof.
  revert a. induction d; intros a; simpl; try done;
    match goal with
    | |- uint_acc _ ?x = Z.pos (Pos.of_uint_acc _ ?y) =>
        replace x with (Z.pos y) by lia; apply IHd
    end.
Qed.

Lemma uint_acc_0 d : uint_acc d 0 = Z.of_uint d.
Proof.
  unfold Z.of_uint. induction d; simpl; try done; apply uint_acc_pos.
Qed.

Lemma read_duration_uint d rest acc total :
  read_duration (NilEmpty.string_of_uint d +:+ rest) acc total
  = read_duration rest (uint_acc d acc) total.
Proof.
  revert acc. induction d; intros acc; simpl; try done; apply IHd.
Qed.

Lemma read_duration_int n rest total :
  (0 ≤ n)%Z →
  read_duration (str_of_int n +:+ rest) 0 total = read_duration rest n total.
Proof.
  intros Hn. unfold str_of_int. destruct n as [|p|p]; [done| |lia].
  simpl. assert (Hnil : Pos.to_uint p ≠ Decimal.Nil).
  { intros E. pose proof (DecimalPos.Unsigned.of_to p) as H.
    rewrite E in H. discriminate. }
  unfold NilZero.string_of_uint.
  destruct (Pos.to_uint p) eqn:E; try done;
    rewrite <- E; rewrite read_duration_uint, uint_acc_0;
    unfold Z.of_uint; by rewrite DecimalPos.Unsigned.of_to.
Qed.

(** ** [format_duration] *)

Lemma render_duration_seconds t :
  (0 ≤ t ≤ 59)%Z → render_duration t = str_of_int t +:+ "s".
Proof.
  intros Ht. unfold render_duration.
  rewrite (Z.div_small t 3600), (Z.mod_small t 3600), (Z.div_small t 60),
    (Z.mod_small t 60) by lia.
  done.
Qed.

Lemma render_duration_minutes t :
  (60 ≤ t ≤ 3599)%Z →
  render_duration t
  = str_of_int (t / 60) +:+ "m " +:+ str_of_int (t mod 60) +:+ "s".
Proof.
  intros Ht. unfold render_duration.
  rewrite (Z.div_small t 3600), (Z.mod_small t 3600) by lia.
  assert (1 ≤ t / 60)%Z by (apply Z.div_le_lower_bound; lia).
  destruct (0 <? t / 60)%Z eqn:E; [done | lia].
Qed.

Lemma render_duration_hours t :
  (3600 ≤ t)%Z →
  render_duration t
  = str_of_int (t / 3600) +:+ "h " +:+ str_of_int (t mod 3600 / 60) +:+ "m".
Proof.
  intros Ht. unfold render_duration.
  assert (1 ≤ t / 3600)%Z by (apply Z.div_le_lower_bound; lia).
  destruct (0 <? t / 3600)%Z eqn:E; [done | lia].
Qed.

(** A negative number of seconds is rendered from its remainder modulo
    3600, never with hours. *)
Lemma render_duration_negative t :
  (t < 0)%Z →
  (t / 3600 ≤ -1)%Z ∧
  render_duration t
  = if (60 <=? t mod 3600)%Z
    then str_of_int (t mod 3600 / 60) +:+ "m "
         +:+ str_of_int (t mod 3600 mod 60) +:+ "s"
    else str_of_int (t mod 3600) +:+ "s".
Proof.
  intros Ht.
  assert (Hh : (t / 3600 ≤ -1)%Z).
  { assert (t / 3600 < 0)%Z by (apply Z.div_lt_upper_bound; lia). lia. }
  split; [done|]. unfold render_duration.
  destruct (0 <? t / 3600)%Z eqn:E; [lia|].
  pose proof (Z.mod_pos_bound t 3600 ltac:(lia)) as Hr.
  assert (Hs : (t mod 60 = t mod 3600 mod 60)%Z).
  { symmetry. apply Z.mod_mod_divide. exists 60%Z. lia. }
  destruct (60 <=? t mod 3600)%Z eqn:E60.
  - assert (1 ≤ t mod 3600 / 60)%Z by (apply Z.div_le_lower_bound; lia).
    destruct (0 <? t mod 3600 / 60)%Z eqn:Em; [|lia]. by rewrite Hs.
  - rewrite (Z.div_small (t mod 3600) 60) by lia.
    rewrite Hs, (Z.mod_small (t mod 3600) 60) by lia. done.
Qed.

(** What a rendered duration reads back as: the elapsed seconds below an
    hour, the elapsed seconds less the dropped seconds from an hour on. *)
Lemma displayed_seconds_render t :
  (0 ≤ t)%Z →
  displayed_seconds (render_duration t)
  = Some (if (t <? 3600)%Z then t else (t - t mod 60)%Z).
Proof.
  intros Ht. unfold displayed_seconds.
  pose proof (Z.mod_pos_bound t 60 ltac:(lia)) as Hs.
  pose proof (Z.mod_pos_bound t 3600 ltac:(lia)) as Hr.
  destruct (Z_lt_le_dec t 60) as [H60|H60];
    [|destruct (Z_lt_le_dec t 3600) as [H3600|H3600]].
  - rewrite render_duration_seconds, read_duration_int by lia.
    destruct (t <? 3600)%Z eqn:E; [|lia]. simpl. f_equal; lia.
  - rewrite render_duration_minutes by lia.
    assert (0 ≤ t / 60)%Z by (apply Z.div_pos; lia).
    rewrite read_duration_int by lia.
    change (read_duration ("m " +:+ ?s) ?a ?b)
      with (read_duration s 0 (b + 60 * a)).
    rewrite read_duration_int by lia.
    destruct (t <? 3600)%Z eqn:E; [|lia]. simpl.
    pose proof (Z.div_mod t 60 ltac:(lia)). f_equal; lia.
  - rewrite render_duration_hours by lia.
    assert (0 ≤ t / 3600)%Z by (apply Z.div_pos; lia).
    assert (0 ≤ t mod 3600 / 60)%Z by (apply Z.div_pos; lia).
    rewrite read_duration_int by lia.
    change (read_duration ("h " +:+ ?s) ?a ?b)
      with (read_duration s 0 (b + 3600 * a)).
    rewrite read_duration_int by lia.
    destruct (t <? 3600)%Z eqn:E; [lia|]. simpl.
    pose proof (Z.div_mod t 3600 ltac:(lia)).
    pose proof (Z.div_mod (t mod 3600) 60 ltac:(lia)).
    assert (Hm : (t mod 60 = t mod 3600 mod 60)%Z).
    { symmetry. apply Z.mod_mod_divide. exists 60%Z. lia. }
    f_equal; lia.
Qed.

Lemma displayed_seconds_monotone t t' :
  (0 ≤ t ≤ t')%Z →
  ∃ v v', displayed_seconds (render_duration t) = Some v
          ∧ displayed_seconds (render_duration t') = Some v'
          ∧ (v ≤ v')%Z.
Proof.
  intros Ht. rewrite !displayed_seconds_render by lia.
  eexists _, _. split; [done|]. split; [done|].
  pose proof (Z.mod_pos_bound t 60 ltac:(lia)).
  pose proof (Z.mod_pos_bound t' 60 ltac:(lia)).
  destruct (t <? 3600)%Z eqn:E, (t' <? 3600)%Z eqn:E'; try lia.
  - assert (3600 ≤ t' - t' mod 60)%Z; [|lia].
    pose proof (Z.div_mod t' 60 ltac:(lia)).
    assert (60 ≤ t' / 60)%Z by (apply Z.div_le_lower_bound; lia). lia.
  - pose proof (Z.div_mod t 60 ltac:(lia)).
    pose proof (Z.div_mod t' 60 ltac:(lia)).
    assert (t / 60 ≤ t' / 60)%Z by (apply Z.div_le_mono; lia). lia.
Qed.

(** With both timestamps given, [format_duration] reads no clock and
    prints nothing: it subtracts and renders. *)
Lemma format_duration_given w start_time end_time st :
  format_duration w start_time (Some end_time) st
  = match datetime_sub end_time start_time with
    | Ok td => (Ok (render_duration (int_total_seconds td)), st)
    | Raise e => (Raise e, st)
    end.
Proof.
  unfold format_duration, mbind, M_bind, mret, M_ret, lift.
  by destruct (datetime_sub end_time start_time).
Qed.

Lemma datetime_sub_same_awareness e s :
  same_awareness e s → ∃ td, datetime_sub e s = Ok td.
Proof.
  unfold same_awareness, datetime_sub. intros [H1 H2].
  destruct (same_tzinfo e s); [by eexists|].
  destruct (utcoffset e), (utcoffset s); eauto.
  - by specialize (H2 eq_refl).
  - by specialize (H1 eq_refl).
Qed.

(** The rounding of a quotient is within a half of it. *)
Lemma round_half_even_bounds n d :
  (0 < d)%Z →
  (2 * n - d ≤ 2 * d * round_half_even n d ≤ 2 * n + d)%Z.
Proof.
  intros Hd. unfold round_half_even.
  pose proof (Z.div_mod n d ltac:(lia)) as Hdiv.
  pose proof (Z.mod_pos_bound n d Hd) as Hmod.
  destruct (2 * (n mod d) <? d)%Z eqn:E1; [nia|].
  destruct (d <? 2 * (n mod d))%Z eqn:E2; [nia|].
  destruct (Z.even (n / d)); nia.
Qed.

Lemma int_true_divide_nonneg a b :
  (0 ≤ a)%Z → (0 < b)%Z → (0 ≤ int_true_divide a b)%Z.
Proof.
  intros Ha Hb. unfold int_true_divide.
  set (e := if (_ <? _)%Z then _ else _).
  set (n := (a * 2 ^ Z.max 0 (52 - e))%Z).
  set (d := (b * 2 ^ Z.max 0 (e - 52))%Z).
  assert (Hn : (0 ≤ n)%Z) by (subst n; apply Z.mul_nonneg_nonneg; [done|]; apply Z.pow_nonneg; lia).
  assert (Hd : (0 < d)%Z) by (subst d; apply Z.mul_pos_pos; [done|]; apply Z.pow_pos_nonneg; lia).
  pose proof (round_half_even_bounds n d Hd) as Hm.
  assert (0 ≤ round_half_even n d)%Z by nia.
  destruct (52 <=? e)%Z eqn:E.
  - apply Z.mul_nonneg_nonneg; [done|]. apply Z.pow_nonneg; lia.
  - apply Z.div_pos; [done|]. apply Z.pow_pos_nonneg; lia.
Qed.

(** The whole seconds of a span that is not negative are not negative. *)
Lemma int_total_seconds_nonneg td :
  (0 ≤ td)%Z → (0 ≤ int_total_seconds td)%Z.
Proof.
  intros Htd. unfold int_total_seconds.
  apply Z.mul_nonneg_nonneg; [lia|].
  apply int_true_divide_nonneg; lia.
Qed.

(** C2.  For every start and end timestamp with end at or after start,
    [format_duration] renders the whole elapsed seconds [t] as the seconds
    followed by s when [t] is at most 59, as minutes m, a space, seconds s
    when [t] is between 60 and 3599, and as hours h, a space, minutes m
    (seconds dropped) from 3600 on; and the duration the text stands for
    does not decrease when [t] grows. *)
Theorem format_duration_ranges_monotonic w start_time end_time td st :
  datetime_sub end_time start_time = Ok td →
  (0 ≤ td)%Z →
  let t := int_total_seconds td in
  ∃ out,
    format_duration w start_time (Some end_time) st = (Ok out, st)
    ∧ ((0 ≤ t ≤ 59)%Z → out = str_of_int t +:+ "s")
    ∧ ((60 ≤ t ≤ 3599)%Z →
       out = str_of_int (t / 60) +:+ "m " +:+ str_of_int (t mod 60) +:+ "s")
    ∧ ((3600 ≤ t)%Z →
       out = str_of_int (t / 3600) +:+ "h "
             +:+ str_of_int (t mod 3600 / 60) +:+ "m")
    ∧ (∀ start_time' end_time' td',
         datetime_sub end_time' start_time' = Ok td' →
         (t ≤ int_total_seconds td')%Z →
         ∃ out' v v',
           format_duration w start_time' (Some end_time') st = (Ok out', st)
           ∧ displayed_seconds out = Some v
           ∧ displayed_seconds out' = Some v'
           ∧ (v ≤ v')%Z).
Proof.
  intros Hsub Htd t.
  assert (Ht : (0 ≤ t)%Z) by (by apply int_total_seconds_nonneg).
  exists (render_duration t).
  rewrite format_duration_given, Hsub.
  split; [done|].
  split; [apply render_duration_seconds|].
  split; [apply render_duration_minutes|].
  split; [apply render_duration_hours|].
  intros start_time' end_time' td' Hsub' Hle.
  destruct (displayed_seconds_monotone t (int_total_seconds td'))
    as (v & v' & Hv & Hv' & Hvv'); [lia|].
  exists (render_duration (int_total_seconds td')), v, v'.
  by rewrite format_duration_given, Hsub'.
Qed.

Lemma format_duration_ranges_monotonic_witness :
  datetime_sub (on_1_march 9 2 5 None) (on_1_march 9 0 0 None) = Ok 125000000%Z
  ∧ (0 ≤ 125000000)%Z
  ∧ format_duration bare_world (on_1_march 9 0 0 None)
      (Some (on_1_march 9 2 5 None)) initial = (Ok "2m 5s", initial).
Proof.
  split; [reflexivity|]. split; [lia|].
  destruct (format_duration_ranges_monotonic bare_world
              (on_1_march 9 0 0 None) (on_1_march 9 2 5 None)
              125000000%Z initial eq_refl ltac:(lia))
    as (out & Hout & _ & Hminutes & _).
  rewrite Hout. f_equal. f_equal. apply Hminutes. vm_compute. split; discriminate.
Defined.

(** C10, as the code has it.  [format_duration] returns for every pair of
    timestamps that are both naive or both aware, also when the end is
    earlier than the start: with negative elapsed seconds the hours are at
    most -1, the hours form is never used, and the text is rendered from
    the elapsed seconds modulo 3600, in the minutes or the seconds form. *)
Theorem format_duration_total_same_awareness w start_time end_time st :
  same_awareness end_time start_time →
  ∃ td out,
    datetime_sub end_time start_time = Ok td
    ∧ format_duration w start_time (Some end_time) st = (Ok out, st)
    ∧ let t := int_total_seconds td in
      ((t < 0)%Z →
       (t / 3600 ≤ -1)%Z
       ∧ out = if (60 <=? t mod 3600)%Z
               then str_of_int (t mod 3600 / 60) +:+ "m "
                    +:+ str_of_int (t mod 3600 mod 60) +:+ "s"
               else str_of_int (t mod 3600) +:+ "s").
Proof.
  intros Haware.
  destruct (datetime_sub_same_awareness _ _ Haware) as [td Htd].
  exists td, (render_duration (int_total_seconds td)).
  rewrite format_duration_given, Htd.
  split; [done|]. split; [done|].
  intros t Ht. by apply render_duration_negative.
Qed.

Lemma format_duration_total_same_awareness_witness :
  same_awareness (on_1_march 9 0 0 None) (on_1_march 9 0 1 None)
  ∧ format_duration bare_world (on_1_march 9 0 1 None)
      (Some (on_1_march 9 0 0 None)) initial = (Ok "59m 59s", initial).
Proof.
  assert (Haware : same_awareness (on_1_march 9 0 0 None) (on_1_march 9 0 1 None))
    by (split; reflexivity).
  split; [exact Haware|].
  destruct (format_duration_total_same_awareness bare_world
              (on_1_march 9 0 1 None) (on_1_march 9 0 0 None) initial Haware)
    as (td & out & Htd & Hout & Hneg).
  rewrite Hout. f_equal. f_equal.
  injection Htd as <-.
  destruct Hneg as [_ ->]; [vm_compute; reflexivity|]. reflexivity.
Defined.

(** C10 as stated fails: an aware start and a naive end (what boto3 and
    [datetime.now()] give) cannot be subtracted. *)
Lemma format_duration_mixed_awareness_raises :
  format_duration bare_world (on_1_march 9 0 0 (Some 0%Z))
    (Some (on_1_march 9 5 0 None)) initial
  = (Raise TypeError, initial).
Proof. reflexivity. Qed.

(** ** Strings *)

Lemma append_cons c (s1 s2 : string) : String c s1 +:+ s2 = String c (s1 +:+ s2).
Proof. reflexivity. Qed.


Lemma append_assoc (s1 s2 s3 : string) : (s1 +:+ s2) +:+ s3 = s1 +:+ s2 +:+ s3.
Proof.
  induction s1 as [|c s1 IH]; [done|]. rewrite !append_cons. by rewrite IH.
Qed.


Lemma length_append (s1 s2 : string) :
  String.length (s1 +:+ s2) = String.length s1 + String.length s2.
Proof.
  induction s1 as [|c s1 IH]; [done|]. rewrite append_cons. simpl. by rewrite IH.
Qed.

Lemma prefix_spec x s : String.prefix x s = true ↔ ∃ after, s = x +:+ after.
Proof.
  revert s. induction x as [|c x IH]; intros s.
  - split; [|by destruct s]. intros _. by exists s.
  - destruct s as [|c' s]; simpl.
    + split; [done | by intros [? ?]].
    + destruct (ascii_dec c c') as [->|Hne].
      * rewrite IH. split; intros [after H]; exists after;
          rewrite ?append_cons in *; congruence.
      * split; [done|]. intros [after H]. rewrite append_cons in H. congruence.
Qed.

(** [contains] decides [occurs_in]. *)
Lemma contains_spec x s : contains x s = true ↔ occurs_in x s.
Proof.
  unfold occurs_in. induction s as [|c s IH].
  - cbn [contains]. rewrite orb_false_r, prefix_spec. split.
    + intros [after H]. by exists EmptyString, after.
    + intros (before & after & H). destruct before; [by exists after|done].
  - cbn [contains]. rewrite orb_true_iff, prefix_spec, IH. split.
    + intros [[after H]|(before & after & H)].
      * by exists EmptyString, after.
      * exists (String c before), after. rewrite append_cons. by rewrite H.
    + intros (before & after & H). destruct before as [|c' before].
      * left. by exists after.
      * right. exists before, after. rewrite append_cons in H. congruence.
Qed.

(** ** [list_all_pipelines] *)

Lemma pipeline_names_named entries names :
  pipelines_named entries names → pipeline_names entries = Ok (PStr <$> names).
Proof.
  induction 1 as [|entry name entries names (d & -> & Hd) _ IH]; [done|].
  rewrite fmap_cons. cbn [pipeline_names getitem]. rewrite Hd, IH. done.
Qed.

Lemma any_filter_str filters name :
  any_filter filters (PStr name)
  = Ok (existsb (λ f, contains f (lower name)) filters).
Proof.
  induction filters as [|f filters IH]; [done|].
  cbn [any_filter lower_method existsb]. cbn [mbind result_bind].
  destruct (contains f (lower name)); [done | apply IH].
Qed.

Lemma matching_pipelines_str filters names :
  matching_pipelines filters (PStr <$> names)
  = Ok (List.filter (λ name, existsb (λ f, contains f (lower name)) filters)
          names).
Proof.
  induction names as [|name names IH]; [done|].
  rewrite fmap_cons. cbn [matching_pipelines].
  rewrite any_filter_str, IH. cbn.
  by destruct (existsb _ filters).
Qed.

(** The answer of [list_all_pipelines] when the service lists pipelines
    by name: the listed names that match, in the order listed. *)
Lemma list_all_pipelines_named self response entries names st :
  list_pipelines (codepipeline self) = Ok (PDict response) →
  response !! "pipelines" = Some (PList entries) →
  pipelines_named entries names →
  list_all_pipelines self st
  = (Ok (List.filter
           (λ name, existsb (λ f, contains f (lower name)) (name_filters self))
           names),
     {| ticks := ticks st;
        trace := trace st ++ [ApiCall "list_pipelines" None] |}).
Proof.
  intros Hcall Hresp Hnames.
  unfold list_all_pipelines, try_except, call, mbind, M_bind, emit, lift.
  rewrite Hcall. simpl. rewrite Hresp. simpl.
  rewrite (pipeline_names_named _ _ Hnames), matching_pipelines_str. done.
Qed.

Lemma init_ok_fields w filters st self st' :
  __init__ w filters st = (Ok self, st') →
  name_filters self = lower <$> filters
  ∧ boto3_client w "codepipeline" (aws_access_key_id self)
      (aws_secret_access_key self) (aws_session_token self) (aws_region self)
    = Ok (codepipeline self).
Proof.
  unfold __init__. destruct (negb _); [done|].
  unfold mbind, M_bind, lift.
  destruct (boto3_client _ _ _ _ _ _) as [client|e] eqn:E; [|done].
  cbn. intros [= <- _]. done.
Qed.

(** C1.  For every pipeline name [P] and filter list [F], lowercased when
    the monitor is built, [list_all_pipelines] has [P] in its result iff
    [P] is listed and the lower case of [P] contains the lower case of some
    [f] of [F]; with no filter, no pipeline is in the result. *)
Theorem list_all_pipelines_filter w F st0 self st1 response entries names st :
  __init__ w F st0 = (Ok self, st1) →
  list_pipelines (codepipeline self) = Ok (PDict response) →
  response !! "pipelines" = Some (PList entries) →
  pipelines_named entries names →
  ∃ kept st',
    list_all_pipelines self st = (Ok kept, st')
    ∧ (∀ P, P ∈ kept ↔
            P ∈ names ∧ ∃ f, f ∈ F ∧ occurs_in (lower f) (lower P))
    ∧ (F = [] → kept = []).
Proof.
  intros Hinit Hcall Hresp Hnames.
  destruct (init_ok_fields _ _ _ _ _ Hinit) as [Hfilters _].
  eexists _, _. split; [by eapply list_all_pipelines_named|].
  rewrite Hfilters. split.
  - intros P.
    rewrite list_elem_of_In, filter_In, <- list_elem_of_In, existsb_exists.
    apply and_iff_compat_l. split.
    + intros (f' & Hin & Hc).
      apply list_elem_of_In, list_elem_of_fmap in Hin as (f & -> & Hin).
      exists f. split; [done|]. by apply contains_spec.
    + intros (f & Hin & Hocc). exists (lower f).
      split; [|by apply contains_spec].
      apply list_elem_of_In, list_elem_of_fmap. eauto.
  - intros ->. clear Hnames. induction names as [|n names IH]; [done|].
    cbn. exact IH.
Qed.

Lemma list_all_pipelines_filter_witness :
  __init__ sample_world ["KULU"] initial
  = (Ok sample_monitor,
     {| ticks := 0; trace := [ClientCreated "codepipeline" "eu-west-1"] |})
  ∧ list_pipelines (codepipeline sample_monitor)
    = Ok (PDict {["pipelines" := PList (entry <$> sample_names)]})
  ∧ ({["pipelines" := PList (entry <$> sample_names)]} : gmap string pyval)
      !! "pipelines" = Some (PList (entry <$> sample_names))
  ∧ pipelines_named (entry <$> sample_names) sample_names
  ∧ ∃ kept st',
      list_all_pipelines sample_monitor initial = (Ok kept, st')
      ∧ "Kulu-API" ∈ kept.
Proof.
  assert (Hinit : __init__ sample_world ["KULU"] initial
                  = (Ok sample_monitor,
                     {| ticks := 0;
                        trace := [ClientCreated "codepipeline" "eu-west-1"] |}))
    by (vm_compute; reflexivity).
  assert (Hnamed : pipelines_named (entry <$> sample_names) sample_names).
  { repeat constructor; eexists; split; reflexivity. }
  split; [exact Hinit|]. split; [reflexivity|]. split; [reflexivity|].
  split; [exact Hnamed|].
  destruct (list_all_pipelines_filter sample_world ["KULU"] initial
              sample_monitor _ _ _ sample_names initial
              Hinit eq_refl eq_refl Hnamed)
    as (kept & st' & Hrun & Hiff & _).
  exists kept, st'. split; [exact Hrun|].
  apply Hiff. split.
  - do 2 apply list_elem_of_further. apply list_elem_of_here.
  - exists "KULU". split; [apply list_elem_of_here|].
    exists EmptyString, "-api". reflexivity.
Defined.

(** ** [__init__] *)

Lemma getenv_truthy_spec v : getenv_truthy v = false ↔ missing v.
Proof.
  unfold missing. destruct v as [s|]; simpl.
  - rewrite negb_false_iff, String.eqb_eq. split; [by right; f_equal|].
    by intros [|[=]].
  - split; [by left | done].
Qed.

(** C4, as the code has it.  If one of the three credentials read from
    the environment is missing or empty, [__init__] raises and leaves the
    state as it was: no client has been created and no call made.  When
    the three are set and not empty, the check passes and the outcome is
    the one of [boto3.client]: if it returns a client, [__init__] returns
    a monitor that holds it, having recorded its creation and made no
    call; if it raises, [__init__] raises the same exception and leaves
    the state as it was. *)
Theorem init_requires_credentials w filters st :
  let key_id := environ w !! "AWS_ACCESS_KEY_ID" in
  let secret := environ w !! "AWS_SECRET_ACCESS_KEY" in
  let token := environ w !! "AWS_SESSION_TOKEN" in
  let region := default "eu-west-1" (environ w !! "AWS_REGION") in
  (missing key_id ∨ missing secret ∨ missing token →
   ∃ msg, __init__ w filters st = (Raise (ValueError msg), st))
  ∧ (¬ missing key_id → ¬ missing secret → ¬ missing token →
     match boto3_client w "codepipeline" key_id secret token region with
     | Ok client =>
         ∃ self,
           __init__ w filters st
           = (Ok self,
              {| ticks := ticks st;
                 trace := trace st ++ [ClientCreated "codepipeline" region] |})
           ∧ codepipeline self = client
     | Raise e => __init__ w filters st = (Raise e, st)
     end).
Proof.
  intros key_id secret token region.
  unfold __init__. fold key_id secret token region.
  cbn [forallb]. rewrite andb_true_r.
  rewrite <- (getenv_truthy_spec key_id), <- (getenv_truthy_spec secret),
    <- (getenv_truthy_spec token).
  destruct (getenv_truthy key_id), (getenv_truthy secret),
    (getenv_truthy token); cbn [andb negb]; (split; [intros H | intros H1 H2 H3]);
    try (destruct H as [H|[H|H]]; discriminate);
    try done; try (by eexists).
  unfold mbind, M_bind, lift.
  destruct (boto3_client w "codepipeline" key_id secret token region)
    as [client|e]; [|done].
  by eexists.
Qed.

Lemma init_requires_credentials_witness :
  (missing (environ no_token_world !! "AWS_SESSION_TOKEN")
   ∧ ∃ msg, __init__ no_token_world ["kulu"] initial
            = (Raise (ValueError msg), initial))
  ∧ (¬ missing (environ sample_world !! "AWS_ACCESS_KEY_ID")
     ∧ ¬ missing (environ sample_world !! "AWS_SECRET_ACCESS_KEY")
     ∧ ¬ missing (environ sample_world !! "AWS_SESSION_TOKEN")
     ∧ ∃ self,
         __init__ sample_world ["kulu"] initial
         = (Ok self,
            {| ticks := 0; trace := [ClientCreated "codepipeline" "eu-west-1"] |})
         ∧ codepipeline self = sample_client).
Proof.
  assert (Hmissing : missing (environ no_token_world !! "AWS_SESSION_TOKEN"))
    by (right; reflexivity).
  assert (Hset : ∀ name,
             (∃ c s, environ sample_world !! name = Some (String c s)) →
             ¬ missing (environ sample_world !! name)).
  { intros name (c & s & H) [H'|H']; rewrite H in H'; discriminate. }
  split.
  - split; [exact Hmissing|].
    apply (init_requires_credentials no_token_world ["kulu"] initial).
    right. right. exact Hmissing.
  - assert (H1 : ¬ missing (environ sample_world !! "AWS_ACCESS_KEY_ID"))
      by (apply Hset; by eexists _, _).
    assert (H2 : ¬ missing (environ sample_world !! "AWS_SECRET_ACCESS_KEY"))
      by (apply Hset; by eexists _, _).
    assert (H3 : ¬ missing (environ sample_world !! "AWS_SESSION_TOKEN"))
      by (apply Hset; by eexists _, _).
    split; [exact H1|]. split; [exact H2|]. split; [exact H3|].
    exact (proj2 (init_requires_credentials sample_world ["kulu"] initial)
             H1 H2 H3).
Defined.

(** C4 as stated fails: with the three credentials set and an empty
    AWS_REGION, [boto3.client] finds no endpoint and raises, and so does
    [__init__]. *)
Lemma init_raises_on_empty_region :
  ¬ missing (environ empty_region_world !! "AWS_ACCESS_KEY_ID")
  ∧ ¬ missing (environ empty_region_world !! "AWS_SECRET_ACCESS_KEY")
  ∧ ¬ missing (environ empty_region_world !! "AWS_SESSION_TOKEN")
  ∧ environ empty_region_world !! "AWS_REGION" = Some EmptyString
  ∧ __init__ empty_region_world ["kulu"] initial
    = (Raise (ValueError "Invalid endpoint: https://codepipeline..amazonaws.com"),
       initial).
Proof.
  assert (Hset : ∀ name,
             (∃ c s, environ empty_region_world !! name = Some (String c s)) →
             ¬ missing (environ empty_region_world !! name)).
  { intros name (c & s & H) [H'|H']; rewrite H in H'; discriminate. }
  split; [apply Hset; by eexists _, _|].
  split; [apply Hset; by eexists _, _|].
  split; [apply Hset; by eexists _, _|].
  split; reflexivity.
Qed.

(** ** Truncation of the commit message *)

Lemma substring_split (n : nat) (m : string) :
  (n ≤ String.length m)%nat →
  ∃ rest, m = substring 0 n m +:+ rest ∧ String.length (substring 0 n m) = n.
Proof.
  revert m. induction n as [|n IH]; intros m Hn.
  - exists m. by destruct m.
  - destruct m as [|c m]; [simpl in Hn; lia|].
    destruct (IH m) as (rest & Hm & Hlen); [simpl in Hn; lia|].
    exists rest. cbn [substring]. rewrite append_cons.
    split; [by rewrite <- Hm | simpl; by rewrite Hlen].
Qed.

(** C7.  A commit message of more than 50 characters is shown as its
    first 50 characters followed by three dots, 53 characters in all; a
    message of at most 50 characters is shown as it is. *)
Theorem truncate_commit_message_spec (m : string) :
  ((50 < String.length m)%nat →
   ∃ first rest,
     m = first +:+ rest
     ∧ String.length first = 50
     ∧ truncate_commit_message (PStr m) = Ok (PStr (first +:+ "..."))
     ∧ String.length (first +:+ "...") = 53)
  ∧ ((String.length m ≤ 50)%nat →
     truncate_commit_message (PStr m) = Ok (PStr m)).
Proof.
  unfold truncate_commit_message. cbn [len mbind result_bind]. split.
  - intros Hlen.
    destruct (substring_split 50 m ltac:(lia)) as (rest & Hm & Hfirst).
    exists (substring 0 50 m), rest.
    split; [done|]. split; [done|]. split.
    + destruct (50 <? Z.of_nat (String.length m))%Z eqn:E; [|lia].
      unfold slice_to_add, slice, slice_bound.
      destruct (50 <? 0)%Z eqn:E0; [lia|].
      rewrite Z.min_l, Z.sub_0_r by lia. done.
    + rewrite length_append, Hfirst. done.
  - intros Hlen.
    destruct (50 <? Z.of_nat (String.length m))%Z eqn:E; [lia | done].
Qed.

Lemma truncate_commit_message_spec_witness :
  (50 < String.length long_message)%nat
  ∧ (String.length "fix bug" ≤ 50)%nat
  ∧ (∃ first rest,
       long_message = first +:+ rest
       ∧ String.length first = 50
       ∧ truncate_commit_message (PStr long_message)
         = Ok (PStr (first +:+ "..."))
       ∧ String.length (first +:+ "...") = 53)
  ∧ truncate_commit_message (PStr "fix bug") = Ok (PStr "fix bug").
Proof.
  assert (Hlong : (50 < String.length long_message)%nat) by (vm_compute; lia).
  assert (Hshort : (String.length "fix bug" ≤ 50)%nat) by (vm_compute; lia).
  split; [exact Hlong|]. split; [exact Hshort|].
  destruct (truncate_commit_message_spec long_message) as [Hcut _].
  destruct (truncate_commit_message_spec "fix bug") as [_ Hkeep].
  split; [exact (Hcut Hlong) | exact (Hkeep Hshort)].
Defined.

(** ** Sorting the rows *)

Lemma ascii_compare_lt c1 c2 :
  Ascii.compare c1 c2 = Lt ↔ (N_of_ascii c1 < N_of_ascii c2)%N.
Proof. unfold Ascii.compare. apply N.compare_lt_iff. Qed.

Lemma ascii_compare_refl c : Ascii.compare c c = Eq.
Proof. unfold Ascii.compare. apply N.compare_refl. Qed.

(** [String.leb], which the sort compares keys with, is [lex_le]. *)
Lemma leb_lex_le s1 s2 : String.leb s1 s2 = true ↔ lex_le s1 s2.
Proof.
  unfold String.leb. revert s2.
  induction s1 as [|c1 s1 IH]; intros [|c2 s2]; cbn [String.compare].
  - split; [constructor | done].
  - split; [constructor | done].
  - split; [done | inversion 1].
  - destruct (Ascii.compare c1 c2) eqn:E.
    + apply Ascii.compare_eq_iff in E as ->. rewrite IH. split.
      * by constructor.
      * inversion 1 as [|? ? ? ? Hlt|? ? ? Hle]; subst; [lia | done].
    + split; [|done]. intros _. constructor. by apply ascii_compare_lt.
    + split; [done|]. inversion 1 as [|? ? ? ? Hlt|? ? ? Hle]; subst.
      * apply ascii_compare_lt in Hlt. congruence.
      * rewrite ascii_compare_refl in E. done.
Qed.

Lemma lex_le_refl s : lex_le s s.
Proof. induction s; by constructor. Qed.

Lemma lex_le_trans s1 s2 s3 : lex_le s1 s2 → lex_le s2 s3 → lex_le s1 s3.
Proof.
  intros H12. revert s3. induction H12; intros s3 H23.
  - constructor.
  - inversion H23; subst; constructor; lia.
  - inversion H23; subst; constructor; [done | by apply IHlex_le].
Qed.

Lemma lex_le_antisym s1 s2 : lex_le s1 s2 → lex_le s2 s1 → s1 = s2.
Proof.
  intros H12 H21. apply String.leb_antisym; by apply leb_lex_le.
Qed.

Lemma lex_le_total s1 s2 : lex_le s1 s2 ∨ lex_le s2 s1.
Proof. rewrite <- !leb_lex_le. apply String.leb_total. Qed.

Lemma insert_row_perm r rows : insert_row r rows ≡ₚ r :: rows.
Proof.
  induction rows as [|r' rows IH]; [done|]. cbn [insert_row].
  destruct (String.leb _ _); [done|]. rewrite IH. apply Permutation_swap.
Qed.

Lemma sort_rows_perm rows : sort_rows rows ≡ₚ rows.
Proof.
  induction rows as [|r rows IH]; [done|]. cbn [sort_rows].
  by rewrite insert_row_perm, IH.
Qed.

Lemma insert_row_ascending r rows :
  ascending rows → ascending (insert_row r rows).
Proof.
  unfold ascending. induction 1 as [|r' rows Hsorted IH Hall].
  - repeat constructor.
  - cbn [insert_row]. destruct (String.leb _ _) eqn:E.
    + apply leb_lex_le in E. constructor; [by constructor|].
      constructor; [done|].
      eapply Forall_impl; [exact Hall|]. intros x Hx. by eapply lex_le_trans.
    + constructor; [done|].
      assert (Hr : lex_le (pipeline r') (pipeline r)).
      { destruct (lex_le_total (pipeline r') (pipeline r)) as [|H']; [done|].
        apply leb_lex_le in H'. congruence. }
      rewrite Forall_forall. intros x Hx.
      rewrite insert_row_perm in Hx.
      apply elem_of_cons in Hx as [->|Hx]; [done|].
      rewrite Forall_forall in Hall. by apply Hall.
Qed.

Lemma sort_rows_ascending rows : ascending (sort_rows rows).
Proof.
  induction rows as [|r rows IH]; [constructor|].
  cbn [sort_rows]. by apply insert_row_ascending.
Qed.

(** Two ascending lists with the same rows are the same list, when the
    name tells the row. *)
Lemma ascending_unique rows1 rows2 :
  ascending rows1 → ascending rows2 → rows1 ≡ₚ rows2 →
  names_identify rows1 → rows1 = rows2.
Proof.
  unfold ascending. intros H1. revert rows2.
  induction H1 as [|a rows1 Hs1 IH Ha]; intros rows2 H2 Hperm Hid.
  - by apply Permutation_nil in Hperm.
  - destruct H2 as [|b rows2 Hs2 Hb].
    { symmetry in Hperm. by apply Permutation_nil in Hperm. }
    assert (Hab : a = b).
    { assert (Hb_in : b ∈ a :: rows1) by (rewrite Hperm; left).
      assert (Ha_in : a ∈ b :: rows2) by (rewrite <- Hperm; left).
      apply Hid; [left | done |].
      apply lex_le_antisym.
      - apply elem_of_cons in Hb_in as [->|Hb_in]; [apply lex_le_refl|].
        rewrite Forall_forall in Ha. by apply Ha.
      - apply elem_of_cons in Ha_in as [->|Ha_in]; [apply lex_le_refl|].
        rewrite Forall_forall in Hb. by apply Hb. }
    subst b. f_equal. apply IH; [done | by eapply Permutation_cons_inv |].
    intros x y Hx Hy. apply Hid; by right.
Qed.

(** ** What a run prints *)

Lemma M_bind_inv_ok {A B} (m : M A) (k : A → M B) st b st' :
  (m ≫= k) st = (Ok b, st') →
  ∃ a st1, m st = (Ok a, st1) ∧ k a st1 = (Ok b, st').
Proof.
  unfold mbind, M_bind. destruct (m st) as [[a|e] st1]; [eauto | done].
Qed.

Lemma mret_inv_ok {A} (x : A) st a st' :
  (mret x : M A) st = (Ok a, st') → a = x ∧ st' = st.
Proof. by intros [= -> ->]. Qed.

Lemma tables_snoc tr ev :
  tables (tr ++ [ev])
  = (tables tr ++ match ev with
                  | Printed (OutTable _ rows) => [rows]
                  | _ => []
                  end)%list.
Proof.
  unfold tables. rewrite omap_app. f_equal.
  by destruct ev as [| |[]].
Qed.

Lemma quiet_ret {A} (a : A) : quiet (mret a : M A).
Proof. by intros st r st' [= _ ->]. Qed.

Lemma quiet_lift {A} (r : result A) : quiet (lift r).
Proof. by intros st r' st' [= _ ->]. Qed.

Lemma quiet_bind {A B} (m : M A) (k : A → M B) :
  quiet m → (∀ a, quiet (k a)) → quiet (m ≫= k).
Proof.
  intros Hm Hk st r st'. unfold mbind, M_bind.
  destruct (m st) as [[a|e] st1] eqn:E.
  - intros H. rewrite (Hk _ _ _ _ H). by eapply Hm.
  - intros [= _ <-]. by eapply Hm.
Qed.

Lemma quiet_try_except {A} (body : M A) (handler : exn → M A) :
  quiet body → (∀ e, quiet (handler e)) → quiet (try_except body handler).
Proof.
  intros Hb Hh st r st'. unfold try_except.
  destruct (body st) as [[a|e] st1] eqn:E.
  - intros [= _ <-]. by eapply Hb.
  - intros H. rewrite (Hh _ _ _ _ H). by eapply Hb.
Qed.

Lemma quiet_emit_call operation name : quiet (emit (ApiCall operation name)).
Proof. intros st r st' [= _ <-]. cbn. by rewrite tables_snoc, app_nil_r. Qed.

Lemma quiet_print_line text : quiet (print (OutLine text)).
Proof. intros st r st' [= _ <-]. cbn. by rewrite tables_snoc, app_nil_r. Qed.

Lemma quiet_print_error text e : quiet (print (OutError text e)).
Proof. intros st r st' [= _ <-]. cbn. by rewrite tables_snoc, app_nil_r. Qed.

Lemma quiet_call {A} operation name (answer : result A) :
  quiet (call operation name answer).
Proof.
  apply quiet_bind; [apply quiet_emit_call | intros; apply quiet_lift].
Qed.

Lemma quiet_now w : quiet (now w).
Proof. by intros st r st' [= _ <-]. Qed.

Create HintDb quiet.
#[local] Hint Resolve quiet_ret quiet_lift quiet_call quiet_now
  quiet_emit_call quiet_print_line quiet_print_error : quiet.

Ltac quiet_step :=
  first
    [ solve [auto with quiet]
    | apply quiet_bind; [|intros ?]
    | apply quiet_try_except; [|intros ?]
    | match goal with
      | |- quiet (if ?b then _ else _) => destruct b
      | |- quiet (match ?x with _ => _ end) => destruct x
      end ].

Lemma quiet_get_latest_execution self name :
  quiet (get_latest_execution self name).
Proof. unfold get_latest_execution. repeat quiet_step. Qed.

Lemma quiet_get_commit_message self name execution_id :
  quiet (get_commit_message self name execution_id).
Proof. unfold get_commit_message. repeat quiet_step. Qed.

Lemma quiet_get_pipeline_branch self name :
  quiet (get_pipeline_branch self name).
Proof. unfold get_pipeline_branch. repeat quiet_step. Qed.

Lemma quiet_format_duration w start_time end_time :
  quiet (format_duration w start_time end_time).
Proof. unfold format_duration. repeat quiet_step. Qed.

Lemma quiet_list_all_pipelines self : quiet (list_all_pipelines self).
Proof. unfold list_all_pipelines. repeat quiet_step. Qed.

#[local] Hint Resolve quiet_get_latest_execution quiet_get_commit_message
  quiet_get_pipeline_branch quiet_format_duration quiet_list_all_pipelines
  : quiet.

Lemma quiet_pipeline_row w self name : quiet (pipeline_row w self name).
Proof. unfold pipeline_row. repeat quiet_step. Qed.

Lemma quiet_collect_rows w self names table_data :
  quiet (collect_rows w self names table_data).
Proof.
  revert table_data. induction names as [|name names IH]; intros table_data.
  - apply quiet_ret.
  - cbn [collect_rows]. apply quiet_bind; [apply quiet_pipeline_row|].
    intros row. apply IH.
Qed.

Lemma quiet_bind_elim {A B} (m : M A) (k : A → M B) st r st' (Q : Prop) :
  quiet m →
  (m ≫= k) st = (r, st') →
  (tables (trace st') = tables (trace st) → Q) →
  (∀ a st1,
     m st = (Ok a, st1) → tables (trace st1) = tables (trace st) →
     k a st1 = (r, st') → Q) →
  Q.
Proof.
  intros Hm H Hraise Hok. unfold mbind, M_bind in H.
  destruct (m st) as [[a|e] st1] eqn:E.
  - eapply Hok; [done | by eapply Hm | done].
  - injection H as <- <-. apply Hraise. by eapply Hm.
Qed.

(** [monitor_pipelines] after its banner. *)
Lemma monitor_pipelines_banner w self st :
  monitor_pipelines w self st
  = (pipelines ← list_all_pipelines self;
     match pipelines with
     | [] =>
         print (OutLine ("No pipelines found containing any of: "
                         +:+ join ", " (name_filters self)))
     | _ =>
         table_data ← collect_rows w self pipelines [];
         let table_data := sort_rows table_data in
         _ ← print (OutTable headers table_data);
         print (OutLine EmptyString)
     end)
      {| ticks := S (ticks st);
         trace := trace st ++ banner self (naive (clock w (ticks st))) |}.
Proof.
  unfold monitor_pipelines, banner.
  unfold mbind at 1 2 3 4 5, M_bind, print, emit, now, lift. cbn.
  by rewrite <- !app_assoc.
Qed.

Lemma tables_banner tr self today : tables (tr ++ banner self today) = tables tr.
Proof. unfold tables. rewrite omap_app. cbn. by rewrite app_nil_r. Qed.

(** A run of [monitor_pipelines] prints at most one table: after the
    banner, the rows the loop collected for the pipelines
    [list_all_pipelines] kept, sorted. *)
Lemma monitor_pipelines_tables w self st r st' :
  monitor_pipelines w self st = (r, st') →
  let st0 := {| ticks := S (ticks st);
                trace := trace st ++ banner self (naive (clock w (ticks st))) |} in
  tables (trace st') = tables (trace st)
  ∨ ∃ names table_data st1 st2,
      list_all_pipelines self st0 = (Ok names, st1)
      ∧ collect_rows w self names [] st1 = (Ok table_data, st2)
      ∧ tables (trace st') = (tables (trace st) ++ [sort_rows table_data])%list.
Proof.
  rewrite monitor_pipelines_banner. intros H st0. fold st0 in H.
  rewrite <- (tables_banner (trace st) self (naive (clock w (ticks st)))).
  change (trace st ++ banner self (naive (clock w (ticks st))))%list
    with (trace st0).
  eapply quiet_bind_elim; [| exact H | by left |]; [auto with quiet|].
  clear H. intros names s1 Hnames Hs1 H.
  destruct names as [|name names].
  { left. rewrite <- Hs1. by eapply quiet_print_line. }
  eapply quiet_bind_elim; [| exact H | left; congruence |];
    [apply quiet_collect_rows|].
  clear H. intros table_data s2 Hrows Hs2 H.
  right. exists (name :: names), table_data, s1, s2.
  split; [done|]. split; [done|].
  unfold mbind, M_bind, print, emit in H. cbn in H.
  injection H as _ <-. cbn. rewrite !tables_snoc, app_nil_r.
  by rewrite Hs2, Hs1.
Qed.

(** ** Pipelines without a latest execution *)

Lemma get_latest_execution_absent self name st :
  no_latest_execution self name →
  ∃ st', get_latest_execution self name st = (Ok PNone, st').
Proof.
  unfold get_latest_execution, try_except, call, mbind, M_bind, emit, lift.
  intros [[e He]|(response & Hcall & [Hnone|Hempty])].
  - rewrite He. cbn. by eexists.
  - rewrite Hcall. cbn. rewrite Hnone. cbn. by eexists.
  - rewrite Hcall. cbn. rewrite Hempty. cbn. by eexists.
Qed.

(** A row is made only for a pipeline whose latest execution is there,
    and carries the name of that pipeline. *)
Lemma pipeline_row_some w self name st row st' :
  pipeline_row w self name st = (Ok (Some row), st') →
  pipeline row = name ∧ ¬ no_latest_execution self name.
Proof.
  unfold pipeline_row. intros H.
  apply M_bind_inv_ok in H as (execution & st1 & Hexec & H).
  destruct (truthy execution) eqn:Ht; cbn [negb] in H;
    [|by apply mret_inv_ok in H as [[=] _]].
  split.
  - repeat (apply M_bind_inv_ok in H as (? & ? & _ & H)).
    by apply mret_inv_ok in H as [[= ->] _].
  - intros Habsent.
    destruct (get_latest_execution_absent self name st Habsent) as [st2 H2].
    rewrite H2 in Hexec. by injection Hexec as <- _.
Qed.

Lemma collect_rows_rows w self names table_data st rows st' :
  collect_rows w self names table_data st = (Ok rows, st') →
  ∀ row, row ∈ rows →
    row ∈ table_data
    ∨ (pipeline row ∈ names ∧ ¬ no_latest_execution self (pipeline row)).
Proof.
  revert table_data st. induction names as [|name names IH];
    intros table_data st H row Hrow.
  - apply mret_inv_ok in H as [-> _]. by left.
  - cbn [collect_rows] in H.
    apply M_bind_inv_ok in H as (made & st1 & Hmade & H).
    destruct (IH _ _ H row Hrow) as [Hin|[Hin Hex]].
    + destruct made as [r|]; [|by left].
      apply elem_of_app in Hin as [Hin|Hin]; [by left|].
      apply list_elem_of_singleton in Hin as ->.
      apply pipeline_row_some in Hmade as [-> Hex].
      right. split; [left | done].
    + right. split; [by right | done].
Qed.

(** C5.  A matched pipeline whose latest execution is absent (the call
    that lists its executions fails, or returns no summary) has no row in
    the table a run prints. *)
Theorem no_row_without_latest_execution w self name st r st' :
  no_latest_execution self name →
  monitor_pipelines w self st = (r, st') →
  ∃ printed,
    tables (trace st') = (tables (trace st) ++ printed)%list
    ∧ ∀ rows row, rows ∈ printed → row ∈ rows → pipeline row ≠ name.
Proof.
  intros Habsent Hrun.
  destruct (monitor_pipelines_tables _ _ _ _ _ Hrun)
    as [Hnone|(names & table_data & st1 & st2 & _ & Hrows & Htable)].
  - exists []. rewrite app_nil_r. split; [done|].
    intros rows row Hin. by apply elem_of_nil in Hin.
  - exists [sort_rows table_data]. split; [done|].
    intros rows row Hrows_in Hrow Hname.
    apply list_elem_of_singleton in Hrows_in as ->.
    rewrite sort_rows_perm in Hrow.
    destruct (collect_rows_rows _ _ _ _ _ _ _ Hrows row Hrow) as [Hin|[_ Hex]].
    + by apply elem_of_nil in Hin.
    + apply Hex. by rewrite Hname.
Qed.

Lemma no_row_without_latest_execution_witness :
  no_latest_execution sample_monitor "kulu-batch"
  ∧ ∃ r st',
      monitor_pipelines sample_world sample_monitor initial = (r, st')
      ∧ tables (trace st') = [sample_table]
      ∧ ∀ row, row ∈ sample_table → pipeline row ≠ "kulu-batch".
Proof.
  assert (Habsent : no_latest_execution sample_monitor "kulu-batch").
  { right. eexists. split; [reflexivity|]. right. reflexivity. }
  split; [exact Habsent|].
  destruct (monitor_pipelines sample_world sample_monitor initial)
    as [r st'] eqn:Hrun.
  exists r, st'. split; [reflexivity|].
  assert (Htable : tables (trace st') = [sample_table]).
  { vm_compute in Hrun. injection Hrun as <- <-. reflexivity. }
  split; [exact Htable|].
  destruct (no_row_without_latest_execution sample_world sample_monitor
              "kulu-batch" initial r st' Habsent Hrun)
    as (printed & Hprinted & Hno).
  rewrite Htable in Hprinted. cbn in Hprinted. subst printed.
  intros row Hrow. apply (Hno sample_table row); [apply list_elem_of_here | exact Hrow].
Defined.

(** ** The order of the table *)

(** The rows the loop adds carry names of the pipelines it goes through,
    in their order, a row for a name at most. *)
Lemma collect_rows_sublist w self names table_data st rows st' :
  collect_rows w self names table_data st = (Ok rows, st') →
  ∃ made, rows = (table_data ++ made)%list ∧ sublist (pipeline <$> made) names.
Proof.
  revert table_data st. induction names as [|name names IH]; intros table_data st H.
  - apply mret_inv_ok in H as [-> _]. exists []. rewrite app_nil_r.
    split; [done | constructor].
  - cbn [collect_rows] in H.
    apply M_bind_inv_ok in H as (made & st1 & Hmade & H).
    destruct (IH _ _ H) as (rest & -> & Hsub).
    destruct made as [r|].
    + apply pipeline_row_some in Hmade as [Hname _].
      exists (r :: rest). rewrite <- app_assoc. split; [done|].
      cbn [fmap list_fmap]. rewrite Hname. by apply sublist_skip.
    + exists rest. split; [done|]. by apply sublist_cons.
Qed.

(** Rows with different names are told by their name. *)
Lemma names_identify_nodup (rows : list ReportRow) :
  NoDup (pipeline <$> rows) → names_identify rows.
Proof.
  induction rows as [|r rows IH]; intros Hnodup a b Ha Hb Hname.
  - by apply elem_of_nil in Ha.
  - cbn [fmap list_fmap] in Hnodup. apply NoDup_cons in Hnodup as [Hnotin Hnodup].
    assert (Hrest : ∀ x, x ∈ rows → pipeline x ≠ pipeline r).
    { intros x Hx Heq. apply Hnotin. rewrite <- Heq.
      apply list_elem_of_fmap. eauto. }
    apply elem_of_cons in Ha as [->|Ha]; apply elem_of_cons in Hb as [->|Hb].
    + done.
    + by destruct (Hrest b Hb).
    + by destruct (Hrest a Ha).
    + by apply IH.
Qed.

(** The sorted table depends on the rows, not on the order they come in,
    when the name tells the row. *)
Lemma sort_rows_order_independent (table_data table_data' : list ReportRow) :
  names_identify table_data →
  table_data' ≡ₚ table_data →
  sort_rows table_data' = sort_rows table_data.
Proof.
  intros Hid Hperm.
  apply ascending_unique; try apply sort_rows_ascending.
  - by rewrite !sort_rows_perm.
  - intros a b Ha Hb. rewrite sort_rows_perm, Hperm in Ha, Hb. by apply Hid.
Qed.

(** C8.  The table a run prints is the sorted list of the rows the loop
    assembled for the pipelines that [list_all_pipelines] kept, their
    names following the kept names.  It holds these rows in ascending
    lexicographic order of pipeline name.  And, a pipeline being listed
    once (the names of the pipelines of an account are unique), it is the
    same table whatever the order in which the rows were assembled. *)
Theorem sort_rows_ascending_fetch_order w self st r st' printed rows :
  monitor_pipelines w self st = (r, st') →
  tables (trace st') = (tables (trace st) ++ printed)%list →
  rows ∈ printed →
  let st0 := {| ticks := S (ticks st);
                trace := trace st ++ banner self (naive (clock w (ticks st))) |} in
  ∃ names table_data st1 st2,
    list_all_pipelines self st0 = (Ok names, st1)
    ∧ collect_rows w self names [] st1 = (Ok table_data, st2)
    ∧ sublist (pipeline <$> table_data) names
    ∧ rows = sort_rows table_data
    ∧ ascending rows
    ∧ rows ≡ₚ table_data
    ∧ (NoDup names →
       ∀ table_data',
         table_data' ≡ₚ table_data → sort_rows table_data' = rows).
Proof.
  intros Hrun Hprinted Hrows st0.
  destruct (monitor_pipelines_tables _ _ _ _ _ Hrun)
    as [Hnone|(names & table_data & st1 & st2 & Hnames & Hcollect & Htable)].
  { rewrite <- (app_nil_r (tables (trace st))) in Hnone.
    rewrite Hnone in Hprinted. apply app_inv_head in Hprinted. subst printed.
    by apply elem_of_nil in Hrows. }
  rewrite Htable in Hprinted. apply app_inv_head in Hprinted. subst printed.
  apply list_elem_of_singleton in Hrows as ->.
  destruct (collect_rows_sublist _ _ _ _ _ _ _ Hcollect) as (made & -> & Hsub).
  rewrite app_nil_l in *.
  exists names, made, st1, st2.
  split; [done|]. split; [done|]. split; [done|]. split; [done|].
  split; [apply sort_rows_ascending|]. split; [apply sort_rows_perm|].
  intros Hnodup table_data' Hperm.
  apply sort_rows_order_independent; [|done].
  apply names_identify_nodup. by eapply sublist_NoDup.
Qed.

Lemma sort_rows_ascending_fetch_order_witness :
  ∃ st',
    monitor_pipelines sample_world sample_monitor initial = (Ok tt, st')
    ∧ tables (trace st') = [sample_table]
    ∧ ascending sample_table
    ∧ sort_rows (reverse sample_table) = sample_table.
Proof.
  destruct (monitor_pipelines sample_world sample_monitor initial)
    as [r st'] eqn:Hrun.
  assert (Hdone : r = Ok tt ∧ tables (trace st') = [sample_table]).
  { vm_compute in Hrun. injection Hrun as <- <-. split; reflexivity. }
  destruct Hdone as [Hr Htable].
  exists st'. split; [by rewrite Hr|]. split; [exact Htable|].
  destruct (sort_rows_ascending_fetch_order sample_world sample_monitor
              initial r st' [sample_table] sample_table Hrun Htable
              (list_elem_of_here _ _))
    as (names & table_data & st1 & st2
        & Hnames & _ & _ & _ & Hascending & Hperm & Hsame).
  split; [exact Hascending|].
  assert (Hnamed : pipelines_named (entry <$> sample_names) sample_names).
  { repeat constructor; eexists; split; reflexivity. }
  rewrite (list_all_pipelines_named sample_monitor _ _ sample_names _
             eq_refl eq_refl Hnamed) in Hnames.
  injection Hnames as <- _.
  apply Hsame.
  - apply (bool_decide_unpack _). vm_compute. reflexivity.
  - rewrite <- Hperm. apply reverse_Permutation.
Defined.

(** ** [get_pipeline_branch] *)

Lemma omap_cons {A B} (f : A → option B) x l :
  omap f (x :: l)
  = match f x with Some y => y :: omap f l | None => omap f l end.
Proof. reflexivity. Qed.

Lemma scan_actions_represented actions decls :
  Forall2 represents_action actions decls →
  scan_actions actions = Ok (PStr <$> head (omap branch_of decls)).
Proof.
  induction 1 as [|v a actions decls (d & -> & Hconf) _ IH]; [done|].
  cbn [scan_actions get mbind result_bind]. rewrite omap_cons.
  unfold branch_of at 1.
  destruct Hconf as [[Hnone Hempty]|(c & Hsome & Hc)].
  - rewrite Hnone, Hempty, lookup_empty. cbn. exact IH.
  - rewrite Hsome. cbn. rewrite (Hc "BranchName").
    destruct (action_configuration a !! "BranchName") as [b|]; cbn; [|exact IH].
    destruct (decide (b = EmptyString)) as [->|Hb]; [exact IH|].
    apply String.eqb_neq in Hb. by rewrite Hb.
Qed.

Lemma source_branch_spec_cons s stages :
  source_branch_spec (s :: stages)
  = if decide (lower (stage_name s) = "source")
    then default (source_branch_spec stages)
           (head (omap branch_of (stage_actions s)))
    else source_branch_spec stages.
Proof.
  unfold source_branch_spec. rewrite filter_cons. case_decide; [|done].
  rewrite fmap_cons. cbn [concat]. rewrite omap_app.
  by destruct (omap branch_of (stage_actions s)).
Qed.

Lemma scan_stages_represented vs stages :
  Forall2 represents_stage vs stages →
  scan_stages vs = Ok (PStr (source_branch_spec stages)).
Proof.
  induction 1 as [|v s vs stages (d & actions & -> & Hname & Hactions & Hrep) _ IH];
    [done|].
  rewrite source_branch_spec_cons.
  cbn [scan_stages get]. rewrite Hname, Hactions. cbn.
  rewrite (scan_actions_represented _ _ Hrep), IH.
  destruct (String.eqb_spec (lower (stage_name s)) "source") as [Heq|Hne].
  - rewrite decide_True by done. cbn.
    by destruct (head (omap branch_of (stage_actions s))).
  - by rewrite decide_False.
Qed.

Lemma source_branch_spec_unknown stages :
  (∀ s a, s ∈ stages → lower (stage_name s) = "source" →
          a ∈ stage_actions s → branch_of a = None) →
  source_branch_spec stages = "Unknown".
Proof.
  intros Hnone. unfold source_branch_spec.
  induction stages as [|s stages IH]; [done|].
  rewrite filter_cons. destruct (decide (lower (stage_name s) = "source")) as [Hs|Hs].
  - rewrite fmap_cons. cbn [concat]. rewrite omap_app.
    replace (omap branch_of (stage_actions s)) with (@nil string).
    + apply IH. intros s' a Hs'. apply Hnone. by right.
    + symmetry. assert (Ha : ∀ a, a ∈ stage_actions s → branch_of a = None).
      { intros a. apply Hnone; [left | done]. }
      induction (stage_actions s) as [|a l IHl]; [done|].
      rewrite omap_cons, (Ha a) by left. apply IHl. intros a' Ha'. apply Ha. by right.
  - apply IH. intros s' a Hs'. apply Hnone. by right.
Qed.

Lemma get_pipeline_branch_raise self name e st :
  get_pipeline (codepipeline self) name = Raise e →
  ∃ st', get_pipeline_branch self name st = (Ok (PStr "Unknown"), st').
Proof.
  intros He.
  unfold get_pipeline_branch, try_except, call, mbind, M_bind, emit, lift.
  rewrite He. cbn. by eexists.
Qed.

Lemma get_pipeline_branch_represented self name response stages st :
  get_pipeline (codepipeline self) name = Ok response →
  represents_pipeline response stages →
  ∃ st',
    get_pipeline_branch self name st
    = (Ok (PStr (source_branch_spec stages)), st').
Proof.
  intros Hcall (r & p & vs & -> & Hp & Hvs & Hrep).
  unfold get_pipeline_branch, try_except, call, mbind, M_bind, emit, lift.
  rewrite Hcall. cbn. rewrite Hp. cbn. rewrite Hvs. cbn.
  rewrite (scan_stages_represented _ _ Hrep). by eexists.
Qed.

(** C6.  For every pipeline definition, [get_pipeline_branch] returns the
    branch of the first action in a stage named source (whatever the
    case) that has a branch name that is not empty; it returns Unknown
    when there is no such stage or action, and when the call fails. *)
Theorem get_pipeline_branch_source self name st :
  (∀ response stages,
     get_pipeline (codepipeline self) name = Ok response →
     represents_pipeline response stages →
     (∃ st',
        get_pipeline_branch self name st
        = (Ok (PStr (source_branch_spec stages)), st'))
     ∧ ((∀ s a, s ∈ stages → lower (stage_name s) = "source" →
                a ∈ stage_actions s → branch_of a = None) →
        source_branch_spec stages = "Unknown"))
  ∧ (∀ e,
       get_pipeline (codepipeline self) name = Raise e →
       ∃ st', get_pipeline_branch self name st = (Ok (PStr "Unknown"), st')).
Proof.
  split.
  - intros response stages Hcall Hrep. split.
    + by eapply get_pipeline_branch_represented.
    + apply source_branch_spec_unknown.
  - intros e. apply get_pipeline_branch_raise.
Qed.

Lemma get_pipeline_branch_source_witness :
  (∃ response,
     get_pipeline (codepipeline sample_monitor) "kulu-web" = Ok response
     ∧ represents_pipeline response sample_stages)
  ∧ (∃ st', get_pipeline_branch sample_monitor "kulu-web" initial
            = (Ok (PStr "main"), st'))
  ∧ (∃ e, get_pipeline silent_client "kulu-web" = Raise e).
Proof.
  assert (Hrep : represents_pipeline
            (PDict {["pipeline" :=
               PDict {["stages" :=
                 PList [PDict (<["name" := PStr "Source"]>
                              {["actions" :=
                                 PList [PDict {["configuration" :=
                                          PDict {["BranchName" := PStr "main"]}]}]]});
                        PDict (<["name" := PStr "Deploy"]>
                              {["actions" := PList []]})]]}]})
            sample_stages).
  { eexists _, _, _. split; [reflexivity|]. split; [reflexivity|].
    split; [reflexivity|].
    constructor; [|constructor; [|constructor]].
    - eexists _, _. split; [reflexivity|]. split; [reflexivity|].
      split; [reflexivity|]. constructor; [|constructor].
      eexists. split; [reflexivity|]. right. eexists. split; [reflexivity|].
      intros k. cbn. rewrite !lookup_singleton. by case_decide.
    - eexists _, _. split; [reflexivity|]. split; [reflexivity|].
      split; [reflexivity|]. constructor. }
  split; [eexists; split; [reflexivity | exact Hrep]|].
  destruct (get_pipeline_branch_source sample_monitor "kulu-web" initial)
    as [Hok _].
  destruct (Hok _ sample_stages eq_refl Hrep) as [Hbranch _].
  split; [exact Hbranch|]. by eexists.
Defined.

(** ** [str.split] and slices *)









(** ** [get_commit_message] *)












(** ** A summary without timestamps *)

Lemma timeless_ret {A} (a : A) : timeless (mret a : M A).
Proof. by intros st r st' [= _ ->]. Qed.

Lemma timeless_lift {A} (r : result A) : timeless (lift r).
Proof. by intros st r' st' [= _ ->]. Qed.

Lemma timeless_bind {A B} (m : M A) (k : A → M B) :
  timeless m → (∀ a, timeless (k a)) → timeless (m ≫= k).
Proof.
  intros Hm Hk st r st'. unfold mbind, M_bind.
  destruct (m st) as [[a|e] st1] eqn:E.
  - intros H. rewrite (Hk _ _ _ _ H). by eapply Hm.
  - intros [= _ <-]. by eapply Hm.
Qed.

Lemma timeless_try_except {A} (body : M A) (handler : exn → M A) :
  timeless body → (∀ e, timeless (handler e)) → timeless (try_except body handler).
Proof.
  intros Hb Hh st r st'. unfold try_except.
  destruct (body st) as [[a|e] st1] eqn:E.
  - intros [= _ <-]. by eapply Hb.
  - intros H. rewrite (Hh _ _ _ _ H). by eapply Hb.
Qed.

Lemma timeless_emit ev : timeless (emit ev).
Proof. by intros st r st' [= _ <-]. Qed.

Lemma timeless_print o : timeless (print o).
Proof. apply timeless_emit. Qed.

Create HintDb timeless.
#[local] Hint Resolve timeless_ret timeless_lift timeless_emit timeless_print
  : timeless.

Ltac timeless_step :=
  first
    [ solve [auto with timeless]
    | apply timeless_bind; [|intros ?]
    | apply timeless_try_except; [|intros ?]
    | match goal with
      | |- timeless (if ?b then _ else _) => destruct b
      | |- timeless (match ?x with _ => _ end) => destruct x
      end ].

Lemma timeless_get_latest_execution self name :
  timeless (get_latest_execution self name).
Proof. unfold get_latest_execution, call. repeat timeless_step. Qed.

Lemma last_char_append (s : string) c :
  last_char (s +:+ String c EmptyString) = Some c.
Proof.
  induction s as [|a s IH]; [done|]. rewrite append_cons.
  cbn [last_char]. rewrite IH. by destruct s.
Qed.

(** No rendered duration reads Unknown: it ends in a unit. *)
Lemma render_duration_not_unknown t : render_duration t ≠ "Unknown".
Proof.
  unfold render_duration. intros H. apply (f_equal last_char) in H.
  destruct (0 <? _)%Z; [|destruct (0 <? _)%Z];
    rewrite <- ?append_assoc, last_char_append in H; discriminate.
Qed.

Lemma lift_bind {A B} (a : A) (k : A → M B) st : (lift (Ok a) ≫= k) st = k a st.
Proof. reflexivity. Qed.

Lemma now_bind {B} w (k : datetime → M B) st :
  (now w ≫= k) st
  = k (naive (clock w (ticks st))) {| ticks := S (ticks st); trace := trace st |}.
Proof. reflexivity. Qed.

Lemma truncate_commit_message_str m :
  ∃ m', truncate_commit_message (PStr m) = Ok (PStr m').
Proof.
  unfold truncate_commit_message. cbn [len mbind result_bind].
  destruct (50 <? _)%Z; by eexists.
Qed.

Lemma datetime_sub_naive e s :
  utcoffset e = None → utcoffset s = None → ∃ td, datetime_sub e s = Ok td.
Proof. intros He Hs. apply datetime_sub_same_awareness. by split. Qed.

(** C9, as the code has it.  For a latest-execution summary that has at
    least one field, whose start time is absent or a naive datetime and
    whose update time is absent, a naive datetime or not a datetime, the
    loop makes a row: each absent timestamp is replaced by a reading of
    the clock, Last Run is the date of the start so obtained, the duration
    is rendered from the two timestamps so obtained, and Duration is
    Unknown only when the update time is there and is not a datetime. *)
Theorem pipeline_row_substitutes_now w self name d b m st :
  returns (get_latest_execution self name) (PDict d) →
  d ≠ ∅ →
  absent_or_naive (d !! "startTime") →
  absent_or_naive_or_other (d !! "lastUpdateTime") →
  returns (get_pipeline_branch self name) b →
  returns (get_commit_message self name
             (default (PStr EmptyString) (d !! "pipelineExecutionId")))
    (PStr m) →
  let now_start := naive (clock w (ticks st)) in
  let now_update := naive (clock w (S (ticks st))) in
  let start_time := default (PDatetime now_start) (d !! "startTime") in
  let last_update_time := default (PDatetime now_update) (d !! "lastUpdateTime") in
  ∃ row st',
    pipeline_row w self name st = (Ok (Some row), st')
    ∧ pipeline row = name
    ∧ branch row = b
    ∧ truncate_commit_message (PStr m) = Ok (commit_message row)
    ∧ format_date start_time = Ok (last_run row)
    ∧ (d !! "startTime" = None → last_run row = strftime_dmY_HM now_start)
    ∧ (∀ s e, start_time = PDatetime s → last_update_time = PDatetime e →
              ∃ td, datetime_sub e s = Ok td
                    ∧ duration row = render_duration (int_total_seconds td))
    ∧ (duration row = "Unknown" →
       ∃ v, d !! "lastUpdateTime" = Some v ∧ isinstance_datetime v = false).
Proof.
  intros Hexec Hne Hstart Hlast Hbranch Hcommit
    now_start now_update start_time last_update_time.
  destruct (Hexec st) as [st1 H1].
  pose proof (timeless_get_latest_execution _ _ _ _ _ H1) as Hticks.
  assert (Htruthy : truthy (PDict d) = true).
  { cbn. by apply negb_true_iff, bool_decide_eq_false. }
  assert (Hs : ∃ s, start_time = PDatetime s ∧ utcoffset s = None
                    ∧ (d !! "startTime" = None → s = now_start)).
  { subst start_time. destruct Hstart as [->|(t & -> & Ht)]; [by eauto|].
    exists t. by cbn. }
  destruct Hs as (s & Hs & Hs_naive & Hs_now).
  assert (He : (∃ e, last_update_time = PDatetime e ∧ utcoffset e = None)
               ∨ (isinstance_datetime last_update_time = false
                  ∧ d !! "lastUpdateTime" = Some last_update_time)).
  { subst last_update_time. destruct Hlast as [->|(v & -> & Hv)]; [eauto|].
    destruct v; eauto. }
  destruct (truncate_commit_message_str m) as [m' Hm'].
  unfold pipeline_row. rewrite (M_bind_ok _ _ _ _ _ H1), Htruthy.
  cbn [negb get]. rewrite !lift_bind, now_bind, lift_bind, now_bind, lift_bind.
  cbn [ticks trace]. rewrite Hticks.
  fold now_start now_update. fold start_time last_update_time.
  rewrite Hs. cbn [format_date]. rewrite lift_bind.
  destruct He as [(e & He & He_naive)|[He Hpresent]].
  - rewrite He.
    destruct (datetime_sub_naive e s He_naive Hs_naive) as [td Htd].
    match goal with
    | |- context [(format_duration w s (Some e) ≫= ?k) ?st0] =>
        rewrite (M_bind_ok _ k st0 (render_duration (int_total_seconds td)) st0)
          by (by rewrite format_duration_given, Htd)
    end.
    match goal with
    | |- context [(get_pipeline_branch self name ≫= ?k) ?st0] =>
        let st3 := fresh "st" in let H3 := fresh "H" in
        destruct (Hbranch st0) as [st3 H3]; rewrite (M_bind_ok _ k st0 _ _ H3)
    end.
    match goal with
    | |- context [(get_commit_message self name ?id ≫= ?k) ?st0] =>
        let st3 := fresh "st" in let H3 := fresh "H" in
        destruct (Hcommit st0) as [st3 H3]; rewrite (M_bind_ok _ k st0 _ _ H3)
    end.
    rewrite Hm', lift_bind. eexists _, _. split; [reflexivity|].
    cbn [pipeline branch commit_message last_run duration].
    split; [done|]. split; [done|]. split; [done|]. split; [done|].
    split; [by intros ->%Hs_now|]. split.
    + intros s' e' [= <-] [= <-]. eauto.
    + intros Hu. by apply render_duration_not_unknown in Hu.
  - assert (Hdur : ∀ (k : string → M (option ReportRow)) st0,
              (match last_update_time with
               | PDatetime e => format_duration w s (Some e)
               | _ => mret "Unknown"
               end ≫= k) st0 = k "Unknown" st0).
    { intros k st0. by destruct last_update_time. }
    rewrite Hdur.
    match goal with
    | |- context [(get_pipeline_branch self name ≫= ?k) ?st0] =>
        let st3 := fresh "st" in let H3 := fresh "H" in
        destruct (Hbranch st0) as [st3 H3]; rewrite (M_bind_ok _ k st0 _ _ H3)
    end.
    match goal with
    | |- context [(get_commit_message self name ?id ≫= ?k) ?st0] =>
        let st3 := fresh "st" in let H3 := fresh "H" in
        destruct (Hcommit st0) as [st3 H3]; rewrite (M_bind_ok _ k st0 _ _ H3)
    end.
    rewrite Hm', lift_bind. eexists _, _. split; [reflexivity|].
    cbn [pipeline branch commit_message last_run duration].
    split; [done|]. split; [done|]. split; [done|]. split; [done|].
    split; [by intros ->%Hs_now|]. split.
    + intros s' e' _ Heq. rewrite Heq in He. discriminate.
    + intros _. eauto.
Qed.

Lemma pipeline_row_substitutes_now_witness :
  returns (get_latest_execution sample_monitor "Kulu-API")
    (PDict (<["pipelineExecutionId" := PStr "e-2"]>
            {["status" := PStr "InProgress"]}))
  ∧ returns (get_pipeline_branch sample_monitor "Kulu-API") (PStr "main")
  ∧ returns (get_commit_message sample_monitor "Kulu-API" (PStr "e-2"))
      (PStr "fix bug")
  ∧ ∃ row st',
      pipeline_row sample_world sample_monitor "Kulu-API" initial
      = (Ok (Some row), st')
      ∧ last_run row = "01/03/2024 09:00"
      ∧ duration row = "1m 0s".
Proof.
  set (d := <["pipelineExecutionId" := PStr "e-2"]>
            ({["status" := PStr "InProgress"]} : gmap string pyval)).
  assert (Hexec : returns (get_latest_execution sample_monitor "Kulu-API") (PDict d))
    by (intros st; eexists; reflexivity).
  assert (Hbranch : returns (get_pipeline_branch sample_monitor "Kulu-API")
                      (PStr "main"))
    by (intros st; eexists; reflexivity).
  assert (Hcommit : returns (get_commit_message sample_monitor "Kulu-API"
                               (PStr "e-2")) (PStr "fix bug"))
    by (intros st; eexists; reflexivity).
  split; [exact Hexec|]. split; [exact Hbranch|]. split; [exact Hcommit|].
  assert (Hne : d ≠ ∅).
  { intros H. apply (f_equal (λ m : gmap string pyval, m !! "status")) in H.
    vm_compute in H. discriminate. }
  destruct (pipeline_row_substitutes_now sample_world sample_monitor "Kulu-API"
              d (PStr "main") "fix bug" initial Hexec Hne
              (or_introl eq_refl) (or_introl eq_refl) Hbranch Hcommit)
    as (row & st' & Hrow & _ & _ & _ & _ & Hlast_run & Hduration & _).
  exists row, st'. split; [exact Hrow|]. split.
  - rewrite (Hlast_run eq_refl). reflexivity.
  - destruct (Hduration _ _ eq_refl eq_refl) as (td & Htd & ->).
    injection Htd as <-. reflexivity.
Defined.

(** C9 as stated fails.  A summary that is there but has no field at all
    is false, so the loop goes on without a row; and with the aware start
    time boto3 returns and no update time, the subtraction raises and the
    run ends without a table. *)
Lemma pipeline_row_drops_empty_summary :
  returns (get_latest_execution odd_monitor "bare") (PDict ∅)
  ∧ (∃ st', pipeline_row sample_world odd_monitor "bare" initial = (Ok None, st'))
  ∧ (∃ st', pipeline_row sample_world odd_monitor "half" initial
            = (Raise TypeError, st'))
  ∧ (∃ st', monitor_pipelines sample_world odd_monitor initial
            = (Raise TypeError, st')
            ∧ tables (trace st') = []).
Proof.
  split; [intros st; eexists; reflexivity|].
  split; [eexists; reflexivity|].
  split; [eexists; reflexivity|].
  eexists. split; reflexivity.
Qed.

(** ** The examples of the specification *)

Example render_45 : render_duration 45 = "45s".
Proof. reflexivity. Qed.

Example render_125 : render_duration 125 = "2m 5s".
Proof. reflexivity. Qed.

Example render_5400 : render_duration 5400 = "1h 30m".
Proof. reflexivity. Qed.

Example render_minus_1 : render_duration (-1) = "59m 59s".
Proof. reflexivity. Qed.

Example lower_mixed : lower "Kulu-API_v2" = "kulu-api_v2".
Proof. reflexivity. Qed.

Example split_twice : split "ab" "xxabyyabab" = Ok ["xx"; "yy"; EmptyString; EmptyString].
Proof. reflexivity. Qed.

Example split_overlapping : split "aa" "aaa" = Ok [EmptyString; "a"].
Proof. reflexivity. Qed.

Example format_date_padded :
  format_date (PDatetime (on_1_march 9 5 0 None)) = Ok "01/03/2024 09:05".
Proof. reflexivity. Qed.

Example subtract_across_february :
  datetime_sub (on_1_march 0 0 0 None)
    {| year := 2024; month := 2; day := 28; hour := 0; minute := 0;
       second := 0; microsecond := 0; tzinfo := None |}
  = Ok (2 * 86400 * 1000000)%Z.
Proof. reflexivity. Qed.

(** Two datetimes of one [tzinfo] object are subtracted field by field,
    also when the object gives them different offsets (on either side of
    a change of the clocks); with two objects the offsets count. *)
Example subtract_same_tzinfo :
  datetime_sub
    {| year := 2024; month := 4; day := 1; hour := 9; minute := 0;
       second := 0; microsecond := 0; tzinfo := Some (0%nat, Some 7200000000%Z) |}
    {| year := 2024; month := 3; day := 31; hour := 9; minute := 0;
       second := 0; microsecond := 0; tzinfo := Some (0%nat, Some 3600000000%Z) |}
  = Ok (24 * 3600 * 1000000)%Z
  ∧ datetime_sub
      {| year := 2024; month := 4; day := 1; hour := 9; minute := 0;
         second := 0; microsecond := 0; tzinfo := Some (1%nat, Some 7200000000%Z) |}
      {| year := 2024; month := 3; day := 31; hour := 9; minute := 0;
         second := 0; microsecond := 0; tzinfo := Some (0%nat, Some 3600000000%Z) |}
    = Ok (23 * 3600 * 1000000)%Z.
Proof. split; reflexivity. Qed.

(** The seconds are a float before they are an integer: a span of ten
    thousand years less a microsecond counts as the full ten thousand
    years. *)
Example whole_seconds_of_a_long_span :
  int_total_seconds 315537897599999999%Z = 315537897600%Z
  ∧ render_duration (int_total_seconds 315537897599999999%Z) = "87649416h 0m".
Proof. split; vm_compute; reflexivity. Qed.

(** Pipelines kulu-api, kulu-web and other-svc with the filter kulu: the
    first two are kept, in the order listed. *)
Example kulu_scenario :
  matching_pipelines ["kulu"] [PStr "kulu-api"; PStr "kulu-web"; PStr "other-svc"]
  = Ok ["kulu-api"; "kulu-web"].
Proof. reflexivity. Qed.

(** Without credentials the script prints the error and the hint, and
    makes no call. *)
Example main_without_credentials :
  main bare_world initial
  = (Completed (Ok tt),
     {| ticks := 0;
        trace :=
          [Printed (OutError "Error: "
                      (ValueError "AWS credentials not found in environment variables"));
           Printed (OutLine (nl +:+ "Please ensure you have set the following environment variables:"));
           Printed (OutLine "AWS_ACCESS_KEY_ID");
           Printed (OutLine "AWS_SECRET_ACCESS_KEY");
           Printed (OutLine "AWS_SESSION_TOKEN")] |}).
Proof. reflexivity. Qed.

(** In [sample_world] the script prints one table, [sample_table]. *)
Example main_sample_table :
  tables (trace (main sample_world initial).2) = [sample_table].
Proof. vm_compute. reflexivity. Qed.

(** * Further properties *)

(** ** The calls to the service never raise *)

Ltac wrapper_done :=
  cbn; rewrite <- ?app_assoc; cbn;
  eexists _, _; (split; [reflexivity|]); eauto.

Lemma get_latest_execution_logged self name :
  one_call_logged "list_pipeline_executions" (Some name)
    ("Error getting latest execution for pipeline " +:+ name +:+ ": ")
    (get_latest_execution self name).
Proof.
  unfold get_latest_execution. intros st.
  unfold try_except, call, mbind, M_bind, emit, lift, print, mret, M_ret.
  destruct (list_pipeline_executions _ _ _) as [response|e]; [|wrapper_done].
  cbn [fst snd].
  destruct (get response _ _) as [executions|e]; [|wrapper_done].
  destruct (truthy executions); [|wrapper_done].
  destruct (getitem0 executions); wrapper_done.
Qed.

Lemma get_commit_message_logged self name execution_id :
  one_call_logged "get_pipeline_execution" (Some name)
    ("Error getting commit message for pipeline " +:+ name +:+ ": ")
    (get_commit_message self name execution_id).
Proof.
  unfold get_commit_message. intros st.
  unfold try_except, call, mbind, M_bind, emit, lift, print, mret, M_ret.
  destruct (get_pipeline_execution _ _ _) as [response|e]; [|wrapper_done].
  cbn [fst snd].
  destruct (get response _ _) as [execution|e]; [|wrapper_done].
  destruct (negb (truthy execution)); [wrapper_done|].
  destruct (result_bind _ _ _ _) as [revisions|e]; [|wrapper_done].
  destruct (scan_revisions revisions); wrapper_done.
Qed.

Lemma get_pipeline_branch_logged self name :
  one_call_logged "get_pipeline" (Some name)
    ("Error getting branch for pipeline " +:+ name +:+ ": ")
    (get_pipeline_branch self name).
Proof.
  unfold get_pipeline_branch. intros st.
  unfold try_except, call, mbind, M_bind, emit, lift, print, mret, M_ret.
  destruct (get_pipeline _ _) as [response|e]; [|wrapper_done].
  cbn [fst snd].
  destruct (get response _ _) as [pipeline|e]; [|wrapper_done].
  destruct (result_bind _ _ _ _) as [stages|e]; [|wrapper_done].
  destruct (scan_stages stages); wrapper_done.
Qed.

Lemma list_all_pipelines_logged self :
  one_call_logged "list_pipelines" None "Error listing pipelines: "
    (list_all_pipelines self).
Proof.
  unfold list_all_pipelines. intros st.
  unfold try_except, call, mbind, M_bind, emit, lift, print, mret, M_ret.
  destruct (list_pipelines _) as [response|e]; [|wrapper_done].
  cbn [fst snd].
  destruct (result_bind _ _ _ _) as [pipelines|e]; [|wrapper_done].
  destruct (pipeline_names pipelines) as [all_pipelines|e]; [|wrapper_done].
  destruct (matching_pipelines _ all_pipelines); wrapper_done.
Qed.

(** X1.  Whatever the service answers, a well-formed response, a
    malformed one or an exception, each of the four methods that call it
    returns without raising, makes exactly one call, and prints nothing or
    one error line. *)
Theorem fetchers_never_raise self name execution_id :
  one_call_logged "list_pipeline_executions" (Some name)
    ("Error getting latest execution for pipeline " +:+ name +:+ ": ")
    (get_latest_execution self name)
  ∧ one_call_logged "get_pipeline_execution" (Some name)
      ("Error getting commit message for pipeline " +:+ name +:+ ": ")
      (get_commit_message self name execution_id)
  ∧ one_call_logged "get_pipeline" (Some name)
      ("Error getting branch for pipeline " +:+ name +:+ ": ")
      (get_pipeline_branch self name)
  ∧ one_call_logged "list_pipelines" None "Error listing pipelines: "
      (list_all_pipelines self).
Proof.
  split; [apply get_latest_execution_logged|].
  split; [apply get_commit_message_logged|].
  split; [apply get_pipeline_branch_logged | apply list_all_pipelines_logged].
Qed.

(** ** Nothing is asked or shown about a pipeline that does not match *)

Lemma emits_only_ret {A} φ (a : A) : emits_only φ (mret a : M A).
Proof. intros st r st' [= _ <-]. exists []. by rewrite app_nil_r. Qed.

Lemma emits_only_lift {A} φ (r : result A) : emits_only φ (lift r).
Proof. intros st r' st' [= _ <-]. exists []. by rewrite app_nil_r. Qed.

Lemma emits_only_now φ w : emits_only φ (now w).
Proof. intros st r st' [= _ <-]. exists []. by rewrite app_nil_r. Qed.

Lemma emits_only_emit (φ : Event → Prop) ev : φ ev → emits_only φ (emit ev).
Proof. intros Hev st r st' [= _ <-]. exists [ev]. split; [done | by constructor]. Qed.

Lemma emits_only_bind {A B} φ (m : M A) (k : A → M B) :
  emits_only φ m →
  (∀ a st st', m st = (Ok a, st') → emits_only φ (k a)) →
  emits_only φ (m ≫= k).
Proof.
  intros Hm Hk st r st'. unfold mbind, M_bind.
  destruct (m st) as [[a|e] st1] eqn:E.
  - intros H. destruct (Hm _ _ _ E) as (evs1 & Hst1 & H1).
    destruct (Hk _ _ _ E _ _ _ H) as (evs2 & Hst' & H2).
    exists (evs1 ++ evs2)%list. rewrite Hst', Hst1, app_assoc.
    split; [done | by apply Forall_app].
  - intros [= _ <-]. by eapply Hm.
Qed.

Lemma emits_only_logged {A} (φ : Event → Prop) operation name text (m : M A) :
  one_call_logged operation name text m →
  φ (ApiCall operation name) →
  (∀ e, φ (Printed (OutError text e))) →
  emits_only φ m.
Proof.
  intros Hm Hcall Herr st r st' Hrun.
  destruct (Hm st) as (v & out & Hst & Hout). rewrite Hst in Hrun.
  injection Hrun as _ <-. eexists. split; [reflexivity|].
  constructor; [done|]. destruct Hout as [->|[e ->]]; repeat constructor. apply Herr.
Qed.

Lemma emits_only_format_duration φ w start_time end_time :
  emits_only φ (format_duration w start_time end_time).
Proof.
  unfold format_duration. apply emits_only_bind.
  - destruct end_time; [apply emits_only_ret | apply emits_only_now].
  - intros e _ _ _. apply emits_only_bind; [apply emits_only_lift|].
    intros; apply emits_only_ret.
Qed.

Lemma any_filter_true filters v :
  any_filter filters v = Ok true →
  ∃ name f, v = PStr name ∧ f ∈ filters ∧ occurs_in f (lower name).
Proof.
  induction filters as [|f filters IH]; [done|].
  cbn [any_filter]. destruct v; try done. cbn.
  destruct (contains f (lower s)) eqn:E.
  - intros _. exists s, f. split; [done|]. split; [left | by apply contains_spec].
  - intros H. destruct (IH H) as (name & f' & Hname & Hin & Hocc).
    exists name, f'. split; [done|]. split; [by right | done].
Qed.

(** Every name [matching_pipelines] keeps contains a filter. *)
Lemma matching_pipelines_sound filters all_pipelines kept :
  matching_pipelines filters all_pipelines = Ok kept →
  Forall (λ name, ∃ f, f ∈ filters ∧ occurs_in f (lower name)) kept.
Proof.
  revert kept. induction all_pipelines as [|v rest IH]; intros kept.
  - by intros [= <-].
  - cbn [matching_pipelines].
    destruct (any_filter filters v) as [keep|] eqn:Hkeep; [|done]. cbn.
    destruct (matching_pipelines filters rest) as [kept'|]; [|done]. cbn.
    specialize (IH _ eq_refl).
    destruct v; try (by intros [= <-]).
    destruct keep; intros [= <-]; [|done].
    constructor; [|done].
    destruct (any_filter_true _ _ Hkeep) as (name & f & [= ->] & Hin & Hocc).
    eauto.
Qed.

Lemma list_all_pipelines_matches self st names st' :
  list_all_pipelines self st = (Ok names, st') → Forall (matches self) names.
Proof.
  unfold list_all_pipelines, try_except, call, mbind, M_bind, emit, lift,
    print, mret, M_ret.
  destruct (list_pipelines _) as [response|e]; [|by intros [= <- _]].
  cbn [fst snd].
  destruct (result_bind _ _ _ _) as [pipelines|e]; [|by intros [= <- _]].
  destruct (pipeline_names pipelines) as [all_pipelines|e]; [|by intros [= <- _]].
  destruct (matching_pipelines _ all_pipelines) as [kept|e] eqn:Hkept;
    [|by intros [= <- _]].
  intros [= <- _]. by apply matching_pipelines_sound in Hkept.
Qed.

Lemma emits_only_pipeline_row w self name :
  matches self name → emits_only (about_matching self) (pipeline_row w self name).
Proof.
  intros Hname. unfold pipeline_row.
  apply emits_only_bind.
  { eapply emits_only_logged; [apply get_latest_execution_logged | done | done]. }
  intros execution _ _ _. destruct (negb (truthy execution)); [apply emits_only_ret|].
  repeat (apply emits_only_bind;
          [first [ apply emits_only_lift | apply emits_only_now ]
          | intros ? _ _ _ ]).
  apply emits_only_bind.
  { repeat match goal with
           | |- emits_only _ (match ?x with _ => _ end) => destruct x
           end;
      first [ apply emits_only_ret | apply emits_only_format_duration ]. }
  intros duration _ _ _. apply emits_only_bind.
  { eapply emits_only_logged; [apply get_pipeline_branch_logged | done | done]. }
  intros branch _ _ _. apply emits_only_bind.
  { eapply emits_only_logged; [apply get_commit_message_logged | done | done]. }
  intros commit _ _ _. apply emits_only_bind; [apply emits_only_lift|].
  intros; apply emits_only_ret.
Qed.

Lemma emits_only_collect_rows w self names table_data :
  Forall (matches self) names →
  emits_only (about_matching self) (collect_rows w self names table_data).
Proof.
  intros Hnames. revert table_data.
  induction Hnames as [|name names Hname _ IH]; intros table_data.
  - apply emits_only_ret.
  - cbn [collect_rows]. apply emits_only_bind.
    + by apply emits_only_pipeline_row.
    + intros row _ _ _. apply IH.
Qed.

(** X2.  A run of [monitor_pipelines] asks the service about matching
    pipelines only, and the table it prints has rows of matching
    pipelines only: every call that names a pipeline, and every row,
    carries a name that contains one of the filters. *)
Theorem monitor_pipelines_only_matching w self :
  emits_only (about_matching self) (monitor_pipelines w self).
Proof.
  unfold monitor_pipelines.
  apply emits_only_bind; [by apply emits_only_emit|]. intros _ _ _ _.
  apply emits_only_bind; [apply emits_only_now|]. intros today _ _ _.
  apply emits_only_bind; [apply emits_only_lift|]. intros today' _ _ _.
  apply emits_only_bind; [by apply emits_only_emit|]. intros _ _ _ _.
  apply emits_only_bind; [by apply emits_only_emit|]. intros _ _ _ _.
  apply emits_only_bind.
  { eapply emits_only_logged; [apply list_all_pipelines_logged | done | done]. }
  intros names st1 st2 Hnames. apply list_all_pipelines_matches in Hnames.
  destruct names as [|name names]; [by apply emits_only_emit|].
  apply emits_only_bind; [by apply emits_only_collect_rows|].
  intros table_data st3 st4 Hrows.
  apply emits_only_bind; [|intros; by apply emits_only_emit].
  apply emits_only_emit. cbn. rewrite Forall_forall. intros row Hrow.
  rewrite sort_rows_perm in Hrow.
  destruct (collect_rows_rows _ _ _ _ _ _ _ Hrows row Hrow) as [Hin|[Hin _]].
  - by apply elem_of_nil in Hin.
  - rewrite Forall_forall in Hnames. by apply Hnames.
Qed.

(** ** The calls made for one pipeline *)

Lemma api_calls_app tr1 tr2 :
  api_calls (tr1 ++ tr2) = (api_calls tr1 ++ api_calls tr2)%list.
Proof. apply omap_app. Qed.

Lemma api_calls_logged operation name text out :
  out = [] ∨ (∃ e, out = [Printed (OutError text e)]) →
  api_calls (ApiCall operation name :: out) = [(operation, name)].
Proof. by intros [->|[e ->]]. Qed.

Lemma lift_bind_raise {A B} e (k : A → M B) st :
  (lift (Raise e) ≫= k) st = (Raise e, st).
Proof. reflexivity. Qed.

(** X3.  For one pipeline the loop calls the service at most three times,
    in this order: the executions of the pipeline, then its definition,
    then the detail of the execution.  A row costs the three calls; a
    pipeline that is skipped costs the first only. *)
Theorem pipeline_row_calls w self name st r st' :
  pipeline_row w self name st = (r, st') →
  ∃ evs,
    trace st' = (trace st ++ evs)%list
    ∧ calls_for_outcome name r (api_calls evs).
Proof.
  unfold pipeline_row.
  destruct (get_latest_execution_logged self name st)
    as (execution & out1 & H1 & Hout1).
  rewrite (M_bind_ok _ _ _ _ _ H1).
  pose proof (api_calls_logged "list_pipeline_executions" (Some name) _ _ Hout1)
    as Hcalls1.
  set (st1 := {| ticks := ticks st; trace := _ |}) in *.
  assert (Hfirst : ∀ (s : State) (x : result (option ReportRow)),
            trace s = trace st1 →
            (match x with
             | Ok (Some _) => False
             | _ => True
             end) →
            (x, s) = (r, st') →
            ∃ evs, trace st' = (trace st ++ evs)%list
                   ∧ calls_for_outcome name r (api_calls evs)).
  { intros s x Hs Hx [= <- <-]. eexists. split; [by rewrite Hs|].
    destruct x as [[row|]|e]; [done | done | by left]. }
  destruct (negb (truthy execution)); [by apply (Hfirst st1 (Ok None))|].
  destruct (get execution "status" _) as [status|e];
    [rewrite lift_bind | by apply (Hfirst st1 (Raise e))].
  destruct (get execution "pipelineExecutionId" _) as [execution_id|e];
    [rewrite lift_bind | by apply (Hfirst st1 (Raise e))].
  rewrite now_bind.
  destruct (get execution "startTime" _) as [start_time|e];
    [rewrite lift_bind | by apply (Hfirst _ (Raise e))].
  rewrite now_bind.
  destruct (get execution "lastUpdateTime" _) as [last_update_time|e];
    [rewrite lift_bind | by apply (Hfirst _ (Raise e))].
  destruct (format_date start_time) as [last_run|e];
    [rewrite lift_bind | by apply (Hfirst _ (Raise e))].
  set (st2 := {| ticks := S _; trace := _ |}).
  assert (Hduration : ∃ x, (match start_time, last_update_time with
                            | PDatetime s, PDatetime e => format_duration w s (Some e)
                            | _, _ => mret "Unknown"
                            end) st2 = (x, st2)).
  { destruct start_time, last_update_time; try (by eexists);
      rewrite format_duration_given; destruct (datetime_sub _ _); by eexists. }
  destruct Hduration as [[duration|e] Hduration];
    [rewrite (M_bind_ok _ _ _ _ _ Hduration)
    | intros H; unfold mbind, M_bind in H; rewrite Hduration in H;
      by apply (Hfirst st2 (Raise e)) ].
  destruct (get_pipeline_branch_logged self name st2) as (branch & out2 & H2 & Hout2).
  rewrite (M_bind_ok _ _ _ _ _ H2).
  pose proof (api_calls_logged "get_pipeline" (Some name) _ _ Hout2) as Hcalls2.
  match goal with
  | |- context [(get_commit_message self name ?id ≫= _) ?s] =>
      destruct (get_commit_message_logged self name id s)
        as (commit & out3 & H3 & Hout3)
  end.
  rewrite (M_bind_ok _ _ _ _ _ H3).
  pose proof (api_calls_logged "get_pipeline_execution" (Some name) _ _ Hout3)
    as Hcalls3.
  assert (Hall : ∀ x : result (option ReportRow),
            (x, {| ticks := ticks st2;
                   trace := (trace st2 ++ ApiCall "get_pipeline" (Some name) :: out2)
                            ++ ApiCall "get_pipeline_execution" (Some name) :: out3 |})
            = (r, st') →
            x ≠ Ok None →
            ∃ evs, trace st' = (trace st ++ evs)%list
                   ∧ calls_for_outcome name r (api_calls evs)).
  { intros x [= <- <-] Hx. eexists. split.
    { cbn [trace]. rewrite <- !app_assoc. reflexivity. }
    rewrite !api_calls_app, Hcalls1, Hcalls2, Hcalls3.
    destruct x as [[row|]|e]; [done | done | by right]. }
  cbn [ticks trace].
  destruct (truncate_commit_message commit) as [commit'|e].
  - rewrite lift_bind. intros H. by apply Hall in H.
  - rewrite lift_bind_raise. intros H. by apply Hall in H.
Qed.

Lemma pipeline_row_calls_witness :
  ∃ row st',
    pipeline_row sample_world sample_monitor "kulu-web" initial
    = (Ok (Some row), st')
    ∧ api_calls (trace st')
      = [listing_call "kulu-web"; definition_call "kulu-web";
         detail_call "kulu-web"].
Proof.
  destruct (pipeline_row sample_world sample_monitor "kulu-web" initial)
    as [r st'] eqn:Hrun.
  destruct (pipeline_row_calls _ _ _ _ _ _ Hrun) as (evs & Htrace & Hcalls).
  vm_compute in Hrun. injection Hrun as <- <-.
  eexists _, _. split; [reflexivity|].
  cbn [trace initial app] in Htrace. rewrite <- Htrace in Hcalls. exact Hcalls.
Defined.

(** ** A listing that cannot be read *)

Lemma pipeline_names_nameless entries :
  (∃ d, PDict d ∈ entries ∧ d !! "name" = None) →
  ∃ e, pipeline_names entries = Raise e.
Proof.
  intros (d & Hin & Hd). induction entries as [|entry entries IH].
  - by apply elem_of_nil in Hin.
  - cbn [pipeline_names]. apply elem_of_cons in Hin as [<-|Hin].
    + cbn. rewrite Hd. by eexists.
    + destruct (IH Hin) as [e He]. rewrite He.
      destruct (getitem entry "name"); by eexists.
Qed.

(** [list_all_pipelines] in one step: the call, then what the pure part
    of the method makes of the answer. *)
Lemma list_all_pipelines_run self st :
  list_all_pipelines self st
  = match (response ← list_pipelines (codepipeline self);
           pipelines ← get response "pipelines" (PList []) ≫= iter;
           all_pipelines ← pipeline_names pipelines;
           matching_pipelines (name_filters self) all_pipelines) with
    | Ok names =>
        (Ok names,
         {| ticks := ticks st;
            trace := trace st ++ [ApiCall "list_pipelines" None] |})
    | Raise e =>
        (Ok [],
         {| ticks := ticks st;
            trace := trace st ++ [ApiCall "list_pipelines" None;
                                  Printed (OutError "Error listing pipelines: " e)] |})
    end.
Proof.
  unfold list_all_pipelines, try_except, call, mbind, M_bind, emit, lift,
    print, mret, M_ret.
  destruct (list_pipelines _) as [response|e]; cbn; [|by rewrite <- app_assoc].
  destruct (result_bind _ _ _ _) as [pipelines|e]; cbn; [|by rewrite <- app_assoc].
  destruct (pipeline_names pipelines) as [all_pipelines|e]; cbn;
    [|by rewrite <- app_assoc].
  destruct (matching_pipelines _ all_pipelines); cbn; [done|by rewrite <- app_assoc].
Qed.

(** X4.  One entry without a name loses the whole listing: when an entry
    of the [list_pipelines] response has no name, [list_all_pipelines]
    prints one error line and returns no pipeline at all, whatever the
    other entries are.  A response without the list of pipelines gives no
    pipeline and no error line. *)
Theorem list_all_pipelines_unreadable self response st :
  list_pipelines (codepipeline self) = Ok (PDict response) →
  (∀ entries,
     response !! "pipelines" = Some (PList entries) →
     (∃ d, PDict d ∈ entries ∧ d !! "name" = None) →
     ∃ e,
       list_all_pipelines self st
       = (Ok [],
          {| ticks := ticks st;
             trace := trace st ++ [ApiCall "list_pipelines" None;
                                   Printed (OutError "Error listing pipelines: " e)] |}))
  ∧ (response !! "pipelines" = None →
     list_all_pipelines self st
     = (Ok [],
        {| ticks := ticks st;
           trace := trace st ++ [ApiCall "list_pipelines" None] |})).
Proof.
  intros Hcall. rewrite list_all_pipelines_run, Hcall.
  cbn [mbind result_bind get]. split.
  - intros entries Hentries Hbad. rewrite Hentries. cbn.
    destruct (pipeline_names_nameless _ Hbad) as [e He]. rewrite He.
    by exists e.
  - intros Hnone. by rewrite Hnone.
Qed.

Lemma list_all_pipelines_unreadable_witness :
  list_pipelines (codepipeline nameless_monitor) = Ok (PDict nameless_listing)
  ∧ ∃ e,
      list_all_pipelines nameless_monitor initial
      = (Ok [],
         {| ticks := 0;
            trace := [ApiCall "list_pipelines" None;
                      Printed (OutError "Error listing pipelines: " e)] |}).
Proof.
  split; [reflexivity|].
  destruct (list_all_pipelines_unreadable nameless_monitor nameless_listing
              initial eq_refl) as [Hbad _].
  apply (Hbad _ eq_refl). eexists.
  split; [apply list_elem_of_further, list_elem_of_here | reflexivity].
Defined.

(** ** [format_duration] without an end *)

(** A reading of the clock and an aware datetime cannot be subtracted,
    either way. *)
Lemma datetime_sub_reading_aware d t :
  utcoffset t ≠ None →
  datetime_sub (naive d) t = Raise TypeError
  ∧ datetime_sub t (naive d) = Raise TypeError.
Proof.
  unfold datetime_sub, same_tzinfo, utcoffset. cbn [tzinfo naive].
  by destruct (tzinfo t) as [[i [o|]]|].
Qed.

(** X5.  Called without an end, [format_duration] reads the clock once
    and measures up to that reading.  The reading has no time zone: with
    an aware start, as boto3 returns them, the call always raises
    [TypeError]; with a naive start it returns the rendering of the time
    elapsed since the start. *)
Theorem format_duration_default_end w start_time st :
  let reading := naive (clock w (ticks st)) in
  let after := {| ticks := S (ticks st); trace := trace st |} in
  (utcoffset start_time ≠ None →
   format_duration w start_time None st = (Raise TypeError, after))
  ∧ (utcoffset start_time = None →
     ∃ td,
       datetime_sub reading start_time = Ok td
       ∧ format_duration w start_time None st
         = (Ok (render_duration (int_total_seconds td)), after)).
Proof.
  intros reading after. unfold format_duration. rewrite now_bind.
  fold reading after. split.
  - intros Haware.
    destruct (datetime_sub_reading_aware (clock w (ticks st)) start_time Haware)
      as [Hsub _].
    fold reading in Hsub. by rewrite Hsub.
  - intros Hnaive.
    destruct (datetime_sub_naive reading start_time eq_refl Hnaive) as [td Htd].
    exists td. split; [done|]. by rewrite Htd.
Qed.

Lemma format_duration_default_end_witness :
  utcoffset (on_1_march 8 0 0 (Some 0%Z)) ≠ None
  ∧ utcoffset (on_1_march 8 59 15 None) = None
  ∧ format_duration sample_world (on_1_march 8 0 0 (Some 0%Z)) None initial
    = (Raise TypeError, {| ticks := 1; trace := [] |})
  ∧ format_duration sample_world (on_1_march 8 59 15 None) None initial
    = (Ok "45s", {| ticks := 1; trace := [] |}).
Proof.
  assert (Haware : utcoffset (on_1_march 8 0 0 (Some 0%Z)) ≠ None) by discriminate.
  split; [exact Haware|]. split; [reflexivity|].
  split.
  - exact (proj1 (format_duration_default_end sample_world _ initial) Haware).
  - destruct (proj2 (format_duration_default_end sample_world
                       (on_1_march 8 59 15 None) initial) eq_refl)
      as (td & Htd & Hrun).
    rewrite Hrun. injection Htd as <-. reflexivity.
Defined.

(** ** What a rendered duration says *)

(** X6.  A rendered duration can be read back.  Below one hour it gives
    the elapsed seconds exactly; from one hour on it gives whole minutes,
    never more than the elapsed time and less than a minute short of it. *)
Theorem render_duration_read_back t :
  (0 ≤ t)%Z →
  ∃ v,
    displayed_seconds (render_duration t) = Some v
    ∧ ((t < 3600)%Z → v = t)
    ∧ ((3600 ≤ t)%Z → (v mod 60 = 0)%Z)
    ∧ (t - 59 ≤ v ≤ t)%Z.
Proof.
  intros Ht. rewrite displayed_seconds_render by done.
  pose proof (Z.mod_pos_bound t 60 ltac:(lia)) as Hs.
  eexists. split; [reflexivity|].
  destruct (t <? 3600)%Z eqn:E.
  - split; [done|]. split; lia.
  - split; [lia|]. split; [|lia]. intros _.
    rewrite Zminus_mod, Z.mod_mod, Z.sub_diag by lia. done.
Qed.

Lemma render_duration_read_back_witness :
  (0 ≤ 5445)%Z
  ∧ render_duration 5445 = "1h 30m"
  ∧ displayed_seconds (render_duration 5445) = Some 5400%Z.
Proof.
  split; [lia|]. split; [reflexivity|].
  destruct (render_duration_read_back 5445 ltac:(lia)) as (v & Hv & _ & _ & _).
  rewrite Hv. f_equal. vm_compute in Hv. by injection Hv as <-.
Defined.

(** ** The sort is stable *)

Lemma insert_row_filter name r rows :
  filter (λ x, pipeline x = name) (insert_row r rows)
  = filter (λ x, pipeline x = name) (r :: rows).
Proof.
  induction rows as [|r' rows IH]; [done|]. cbn [insert_row].
  destruct (String.leb (pipeline r) (pipeline r')) eqn:E; [done|].
  rewrite filter_cons, IH, !filter_cons.
  destruct (decide (pipeline r' = name)) as [Hr'|Hr'];
    destruct (decide (pipeline r = name)) as [Hr|Hr]; try done.
  rewrite Hr, <- Hr' in E.
  assert (String.leb (pipeline r') (pipeline r') = true)
    by (apply leb_lex_le, lex_le_refl).
  congruence.
Qed.

(** X7.  The sort keeps the rows of one pipeline name in the order in
    which they were assembled: for every name, the rows of that name come
    out of [sort_rows] as they went in. *)
Theorem sort_rows_stable name (table_data : list ReportRow) :
  filter (λ r, pipeline r = name) (sort_rows table_data)
  = filter (λ r, pipeline r = name) table_data.
Proof.
  induction table_data as [|r rows IH]; [done|].
  cbn [sort_rows]. rewrite insert_row_filter, !filter_cons. by rewrite IH.
Qed.

(** ** The script *)

(** X8.  The script ends in one of two ways.  If argparse leaves the
    program (a usage error, or the help asked for), [SystemExit] passes
    the except clause and ends the run with the exit status of argparse;
    the program itself has then printed nothing, created no client and
    made no call.  Once the command line is parsed the script never
    raises: with a credential missing or empty it prints the error and the
    hint about the three variables, and nothing else happens: no client,
    no call; any other exception of the constructor or of the monitoring,
    whatever its cause, is reported in the same way, hint included; and a
    run without exception ends as the monitoring left it. *)
Theorem main_reports_errors w st :
  (∀ code, parse_args w = SystemExit code → main w st = (Exited code, st))
  ∧ ∀ given,
      parse_args w = Namespace given →
      let filters := default ["kulu"] given in
      let body := monitor ← __init__ w filters; monitor_pipelines w monitor in
      (missing (environ w !! "AWS_ACCESS_KEY_ID")
       ∨ missing (environ w !! "AWS_SECRET_ACCESS_KEY")
       ∨ missing (environ w !! "AWS_SESSION_TOKEN") →
       main w st
       = (Completed (Ok tt),
          {| ticks := ticks st;
             trace :=
               trace st
               ++ Printed (OutError "Error: "
                    (ValueError "AWS credentials not found in environment variables"))
                  :: credentials_hint |}))
      ∧ (∀ e st1,
           body st = (Raise e, st1) →
           main w st
           = (Completed (Ok tt),
              {| ticks := ticks st1;
                 trace := trace st1
                          ++ Printed (OutError "Error: " e) :: credentials_hint |}))
      ∧ (∀ st1, body st = (Ok tt, st1) → main w st = (Completed (Ok tt), st1))
      ∧ ∃ st', main w st = (Completed (Ok tt), st').
Proof.
  split.
  { intros code Hexit. unfold main. by rewrite Hexit. }
  intros given Hparsed filters body.
  assert (Hhandler : ∀ e st1,
            body st = (Raise e, st1) →
            main w st
            = (Completed (Ok tt),
               {| ticks := ticks st1;
                  trace := trace st1
                           ++ Printed (OutError "Error: " e) :: credentials_hint |})).
  { intros e st1 Hrun. unfold main, try_except. rewrite Hparsed.
    fold filters. fold body. rewrite Hrun.
    unfold report_error, mbind, M_bind, print, emit. cbn. by rewrite <- !app_assoc. }
  assert (Hreturn : ∀ st1, body st = (Ok tt, st1) →
                           main w st = (Completed (Ok tt), st1)).
  { intros st1 Hrun. unfold main, try_except. rewrite Hparsed.
    fold filters. fold body. by rewrite Hrun. }
  split; [|split; [exact Hhandler|split; [exact Hreturn|]]].
  - intros Hmissing. apply Hhandler.
    subst body. unfold mbind, M_bind, __init__. cbn [forallb]. rewrite andb_true_r.
    assert (Hfalse : getenv_truthy (environ w !! "AWS_ACCESS_KEY_ID")
                     && (getenv_truthy (environ w !! "AWS_SECRET_ACCESS_KEY")
                         && getenv_truthy (environ w !! "AWS_SESSION_TOKEN"))
                     = false).
    { destruct Hmissing as [H|[H|H]]; apply getenv_truthy_spec in H; rewrite H;
        rewrite ?andb_false_r; done. }
    by rewrite Hfalse.
  - destruct (body st) as [[[]|e] st1] eqn:Hrun.
    + exists st1. by apply Hreturn.
    + eexists. by apply Hhandler.
Qed.

Lemma main_reports_errors_witness :
  (parse_args usage_error_world = SystemExit 2
   ∧ main usage_error_world initial = (Exited 2, initial))
  ∧ parse_args no_token_world = Namespace None
  ∧ missing (environ no_token_world !! "AWS_SESSION_TOKEN")
  ∧ main no_token_world initial
    = (Completed (Ok tt),
       {| ticks := 0;
          trace :=
            Printed (OutError "Error: "
              (ValueError "AWS credentials not found in environment variables"))
            :: credentials_hint |}).
Proof.
  assert (Hmissing : missing (environ no_token_world !! "AWS_SESSION_TOKEN"))
    by (right; reflexivity).
  split.
  - split; [reflexivity|].
    exact (proj1 (main_reports_errors usage_error_world initial) 2%Z eq_refl).
  - split; [reflexivity|]. split; [exact Hmissing|].
    destruct (proj2 (main_reports_errors no_token_world initial) None eq_refl)
      as [Hcredentials _].
    apply Hcredentials. right. right. exact Hmissing.
Defined.

(** ** A row from a complete summary *)

Lemma logged_returns_ticks {A} operation name text (m : M A) st r st' :
  one_call_logged operation name text m → m st = (r, st') → ticks st' = ticks st.
Proof.
  intros Hm Hrun. destruct (Hm st) as (v & out & Hst & _).
  rewrite Hst in Hrun. by injection Hrun as _ <-.
Qed.

(** The loop body once the summary is known: the two readings of the
    clock are taken, and the rest runs on the two timestamps. *)
Lemma pipeline_row_from_summary w self name d st :
  returns (get_latest_execution self name) (PDict d) →
  d ≠ ∅ →
  let start_time :=
    default (PDatetime (naive (clock w (ticks st)))) (d !! "startTime") in
  let last_update_time :=
    default (PDatetime (naive (clock w (S (ticks st))))) (d !! "lastUpdateTime") in
  ∃ st1,
    ticks st1 = S (S (ticks st))
    ∧ tables (trace st1) = tables (trace st)
    ∧ pipeline_row w self name st
      = (last_run ← lift (format_date start_time);
         duration ← match start_time, last_update_time with
                    | PDatetime s, PDatetime e => format_duration w s (Some e)
                    | _, _ => mret "Unknown"
                    end;
         branch ← get_pipeline_branch self name;
         commit_message ← get_commit_message self name
                            (default (PStr EmptyString) (d !! "pipelineExecutionId"));
         commit_message ← lift (truncate_commit_message commit_message);
         mret (Some {| pipeline := name;
                       branch := branch;
                       status := default (PStr "UNKNOWN") (d !! "status");
                       last_run := last_run;
                       duration := duration;
                       commit_message := commit_message |})) st1.
Proof.
  intros Hexec Hne start_time last_update_time.
  destruct (Hexec st) as [st0 H0].
  pose proof (timeless_get_latest_execution _ _ _ _ _ H0) as Hticks.
  pose proof (quiet_get_latest_execution _ _ _ _ _ H0) as Htables.
  exists {| ticks := S (S (ticks st)); trace := trace st0 |}.
  split; [done|]. split; [done|].
  assert (Htruthy : truthy (PDict d) = true).
  { cbn. by apply negb_true_iff, bool_decide_eq_false. }
  unfold pipeline_row. rewrite (M_bind_ok _ _ _ _ _ H0), Htruthy.
  cbn [negb get]. rewrite !lift_bind, now_bind, lift_bind, now_bind, lift_bind.
  cbn [ticks trace]. rewrite Hticks. reflexivity.
Qed.

(** X9.  For a summary with both timestamps, of the same awareness, the
    loop makes the row one expects: the name, the branch, the status of
    the summary (UNKNOWN when it has none), the start time as a date, the
    rendering of the time from start to last update, and the commit
    message cut to size.  The clock is read twice all the same. *)
Theorem pipeline_row_complete w self name d s e td b m st :
  returns (get_latest_execution self name) (PDict d) →
  d !! "startTime" = Some (PDatetime s) →
  d !! "lastUpdateTime" = Some (PDatetime e) →
  datetime_sub e s = Ok td →
  returns (get_pipeline_branch self name) b →
  returns (get_commit_message self name
             (default (PStr EmptyString) (d !! "pipelineExecutionId")))
    (PStr m) →
  ∃ c st',
    pipeline_row w self name st
    = (Ok (Some {| pipeline := name;
                   branch := b;
                   status := default (PStr "UNKNOWN") (d !! "status");
                   last_run := strftime_dmY_HM s;
                   duration := render_duration (int_total_seconds td);
                   commit_message := PStr c |}), st')
    ∧ truncate_commit_message (PStr m) = Ok (PStr c)
    ∧ ticks st' = S (S (ticks st)).
Proof.
  intros Hexec Hstart Hlast Htd Hbranch Hcommit.
  assert (Hne : d ≠ ∅) by (intros ->; by rewrite lookup_empty in Hstart).
  destruct (pipeline_row_from_summary w self name d st Hexec Hne)
    as (st1 & Hticks & _ & ->).
  rewrite Hstart, Hlast. cbn [from_option id format_date]. rewrite lift_bind.
  rewrite (M_bind_ok _ _ st1 (render_duration (int_total_seconds td)) st1)
    by (by rewrite format_duration_given, Htd).
  destruct (Hbranch st1) as [st2 H2]. rewrite (M_bind_ok _ _ _ _ _ H2).
  destruct (Hcommit st2) as [st3 H3]. rewrite (M_bind_ok _ _ _ _ _ H3).
  destruct (truncate_commit_message_str m) as [c Hc]. rewrite Hc, lift_bind.
  exists c, st3. split; [done|]. split; [done|].
  rewrite (logged_returns_ticks _ _ _ _ _ _ _
             (get_commit_message_logged self name _) H3).
  rewrite (logged_returns_ticks _ _ _ _ _ _ _
             (get_pipeline_branch_logged self name) H2).
  done.
Qed.

Lemma pipeline_row_complete_witness :
  returns (get_latest_execution sample_monitor "kulu-web")
    (PDict (<["pipelineExecutionId" := PStr "e-1"]>
           (<["status" := PStr "Succeeded"]>
           (<["startTime" := PDatetime (on_1_march 8 0 0 (Some 0%Z))]>
           {["lastUpdateTime" := PDatetime (on_1_march 8 2 5 (Some 0%Z))]}))))
  ∧ datetime_sub (on_1_march 8 2 5 (Some 0%Z)) (on_1_march 8 0 0 (Some 0%Z))
    = Ok 125000000%Z
  ∧ returns (get_pipeline_branch sample_monitor "kulu-web") (PStr "main")
  ∧ returns (get_commit_message sample_monitor "kulu-web" (PStr "e-1"))
      (PStr "fix bug")
  ∧ ∃ c st',
      pipeline_row sample_world sample_monitor "kulu-web" initial
      = (Ok (Some {| pipeline := "kulu-web";
                     branch := PStr "main";
                     status := PStr "Succeeded";
                     last_run := "01/03/2024 08:00";
                     duration := "2m 5s";
                     commit_message := PStr c |}), st')
      ∧ truncate_commit_message (PStr "fix bug") = Ok (PStr c)
      ∧ ticks st' = 2.
Proof.
  set (d := <["pipelineExecutionId" := PStr "e-1"]>
            (<["status" := PStr "Succeeded"]>
            (<["startTime" := PDatetime (on_1_march 8 0 0 (Some 0%Z))]>
            ({["lastUpdateTime" := PDatetime (on_1_march 8 2 5 (Some 0%Z))]}
               : gmap string pyval)))).
  assert (Hexec : returns (get_latest_execution sample_monitor "kulu-web") (PDict d))
    by (intros st; eexists; reflexivity).
  assert (Hbranch : returns (get_pipeline_branch sample_monitor "kulu-web")
                      (PStr "main"))
    by (intros st; eexists; reflexivity).
  assert (Hcommit : returns (get_commit_message sample_monitor "kulu-web"
                               (PStr "e-1")) (PStr "fix bug"))
    by (intros st; eexists; reflexivity).
  split; [exact Hexec|]. split; [reflexivity|].
  split; [exact Hbranch|]. split; [exact Hcommit|].
  exact (pipeline_row_complete sample_world sample_monitor "kulu-web" d
           _ _ _ (PStr "main") "fix bug" initial
           Hexec eq_refl eq_refl eq_refl Hbranch Hcommit).
Defined.

(** ** Runs that end early *)

(** X10.  When no pipeline is kept (nothing matches, or the listing
    failed), [monitor_pipelines] returns after one call, the listing; it
    prints no table, and its last line says that no pipeline was found and
    recalls the filters. *)
Theorem monitor_pipelines_nothing_found w self st :
  returns (list_all_pipelines self) [] →
  ∃ st',
    monitor_pipelines w self st = (Ok tt, st')
    ∧ tables (trace st') = tables (trace st)
    ∧ api_calls (trace st')
      = (api_calls (trace st) ++ [("list_pipelines", None)])%list
    ∧ last (trace st')
      = Some (Printed (OutLine ("No pipelines found containing any of: "
                                +:+ join ", " (name_filters self)))).
Proof.
  intros Hnone. rewrite monitor_pipelines_banner.
  set (st0 := {| ticks := S _; trace := _ |}).
  destruct (Hnone st0) as [st1 H1].
  rewrite (M_bind_ok _ _ _ _ _ H1).
  destruct (list_all_pipelines_logged self st0) as (v & out & Hst1 & Hout).
  rewrite Hst1 in H1. injection H1 as _ <-.
  eexists. split; [reflexivity|]. cbn [trace st0].
  split; [|split].
  - rewrite tables_snoc, app_nil_r. unfold tables. rewrite !omap_app.
    destruct Hout as [->|[e ->]]; cbn; by rewrite !app_nil_r.
  - destruct Hout as [->|[e ->]]; rewrite !api_calls_app; cbn;
      by rewrite !app_nil_r.
  - by rewrite last_snoc.
Qed.

Lemma monitor_pipelines_nothing_found_witness :
  returns (list_all_pipelines
             {| aws_access_key_id := Some "AKIA";
                aws_secret_access_key := Some "secret";
                aws_session_token := Some "token";
                aws_region := "eu-west-1";
                name_filters := ["kulu"; "web"];
                codepipeline := silent_client |}) []
  ∧ ∃ st',
      monitor_pipelines sample_world
        {| aws_access_key_id := Some "AKIA";
           aws_secret_access_key := Some "secret";
           aws_session_token := Some "token";
           aws_region := "eu-west-1";
           name_filters := ["kulu"; "web"];
           codepipeline := silent_client |} initial = (Ok tt, st')
      ∧ tables (trace st') = []
      ∧ api_calls (trace st') = [("list_pipelines", None)]
      ∧ last (trace st')
        = Some (Printed (OutLine "No pipelines found containing any of: kulu, web")).
Proof.
  set (self := {| aws_access_key_id := Some "AKIA";
                  aws_secret_access_key := Some "secret";
                  aws_session_token := Some "token";
                  aws_region := "eu-west-1";
                  name_filters := ["kulu"; "web"];
                  codepipeline := silent_client |}).
  assert (Hnone : returns (list_all_pipelines self) [])
    by (intros st; eexists; reflexivity).
  split; [exact Hnone|].
  exact (monitor_pipelines_nothing_found sample_world self initial Hnone).
Defined.

Lemma collect_rows_raises w self names bad table_data st :
  bad ∈ names →
  (∀ st0, ∃ e st1, pipeline_row w self bad st0 = (Raise e, st1)) →
  ∃ e st', collect_rows w self names table_data st = (Raise e, st').
Proof.
  intros Hin Hbad. revert table_data st.
  induction names as [|name names IH]; intros table_data st.
  - by apply elem_of_nil in Hin.
  - cbn [collect_rows]. unfold mbind, M_bind.
    destruct (pipeline_row w self name st) as [[row|e] st1] eqn:Hrow.
    + apply elem_of_cons in Hin as [->|Hin].
      * destruct (Hbad st) as (e & st2 & H2). congruence.
      * apply (IH Hin).
    + by eexists _, _.
Qed.

Lemma pipeline_row_half_aware w self name d st :
  returns (get_latest_execution self name) (PDict d) →
  half_aware d →
  ∃ st', pipeline_row w self name st = (Raise TypeError, st').
Proof.
  intros Hexec Hhalf.
  assert (Hne : d ≠ ∅).
  { intros ->. destruct Hhalf as [(s & H & _)|(e & _ & H & _)];
      by rewrite lookup_empty in H. }
  destruct (pipeline_row_from_summary w self name d st Hexec Hne)
    as (st1 & _ & _ & ->).
  destruct Hhalf as [(s & -> & Hs & ->)|(e & -> & -> & He)];
    cbn [from_option id format_date]; rewrite lift_bind;
    unfold mbind at 1, M_bind at 1; rewrite format_duration_given.
  - destruct (datetime_sub_reading_aware (clock w (S (ticks st))) s Hs)
      as [-> _]. by eexists.
  - destruct (datetime_sub_reading_aware (clock w (ticks st)) e He)
      as [_ ->]. by eexists.
Qed.

(** X11.  One execution with an aware timestamp and a missing one ends
    the whole run: when a kept pipeline has such a summary, as boto3
    returns it for an execution without start or without update time,
    [monitor_pipelines] raises and prints no table, whatever the other
    pipelines are. *)
Theorem monitor_pipelines_aborts_on_half_aware w self names name d st :
  returns (list_all_pipelines self) names →
  name ∈ names →
  returns (get_latest_execution self name) (PDict d) →
  half_aware d →
  ∃ e st',
    monitor_pipelines w self st = (Raise e, st')
    ∧ tables (trace st') = tables (trace st).
Proof.
  intros Hnames Hin Hexec Hhalf. rewrite monitor_pipelines_banner.
  set (st0 := {| ticks := S _; trace := _ |}).
  destruct (Hnames st0) as [st1 H1]. rewrite (M_bind_ok _ _ _ _ _ H1).
  destruct names as [|first names]; [by apply elem_of_nil in Hin|].
  destruct (collect_rows_raises w self (first :: names) name [] st1 Hin)
    as (e & st2 & H2).
  { intros s. destruct (pipeline_row_half_aware w self name d s Hexec Hhalf).
    by eexists _, _. }
  exists e, st2. unfold mbind, M_bind. rewrite H2. split; [done|].
  rewrite (quiet_collect_rows _ _ _ _ _ _ _ H2).
  rewrite (quiet_list_all_pipelines _ _ _ _ H1).
  apply tables_banner.
Qed.

Lemma monitor_pipelines_aborts_on_half_aware_witness :
  returns (list_all_pipelines odd_monitor) ["bare"; "half"]
  ∧ "half" ∈ ["bare"; "half"]
  ∧ returns (get_latest_execution odd_monitor "half")
      (PDict (<["status" := PStr "InProgress"]>
              {["startTime" := PDatetime (on_1_march 8 0 0 (Some 0%Z))]}))
  ∧ half_aware (<["status" := PStr "InProgress"]>
                {["startTime" := PDatetime (on_1_march 8 0 0 (Some 0%Z))]})
  ∧ ∃ e st',
      monitor_pipelines sample_world odd_monitor initial = (Raise e, st')
      ∧ tables (trace st') = [].
Proof.
  set (d := <["status" := PStr "InProgress"]>
            ({["startTime" := PDatetime (on_1_march 8 0 0 (Some 0%Z))]}
               : gmap string pyval)).
  assert (Hnames : returns (list_all_pipelines odd_monitor) ["bare"; "half"])
    by (intros st; eexists; reflexivity).
  assert (Hin : "half" ∈ ["bare"; "half"])
    by apply list_elem_of_further, list_elem_of_here.
  assert (Hexec : returns (get_latest_execution odd_monitor "half") (PDict d))
    by (intros st; eexists; reflexivity).
  assert (Hhalf : half_aware d).
  { left. eexists. split; [reflexivity|]. split; [discriminate | reflexivity]. }
  split; [exact Hnames|]. split; [exact Hin|]. split; [exact Hexec|].
  split; [exact Hhalf|].
  exact (monitor_pipelines_aborts_on_half_aware sample_world odd_monitor _ _ d
           initial Hnames Hin Hexec Hhalf).
Defined.

(** ** The empty filter *)

Lemma contains_empty s : contains EmptyString s = true.
Proof. by destruct s. Qed.

(** X12.  An empty string among the filters selects every pipeline: the
    monitor then keeps all the names the service lists, in the order
    listed. *)
Theorem list_all_pipelines_empty_filter w F st0 self st1 response entries names st :
  __init__ w F st0 = (Ok self, st1) →
  EmptyString ∈ F →
  list_pipelines (codepipeline self) = Ok (PDict response) →
  response !! "pipelines" = Some (PList entries) →
  pipelines_named entries names →
  ∃ st', list_all_pipelines self st = (Ok names, st').
Proof.
  intros Hinit Hempty Hcall Hresp Hnames.
  destruct (init_ok_fields _ _ _ _ _ Hinit) as [Hfilters _].
  rewrite (list_all_pipelines_named _ _ _ _ _ Hcall Hresp Hnames), Hfilters.
  eexists. f_equal. f_equal.
  assert (Hall : ∀ name, existsb (λ f, contains f (lower name)) (lower <$> F) = true).
  { intros name. apply existsb_exists. exists EmptyString.
    split; [|apply contains_empty].
    apply list_elem_of_In, list_elem_of_fmap. by exists EmptyString. }
  clear Hnames. induction names as [|name names IH]; [done|].
  cbn [List.filter]. by rewrite Hall, IH.
Qed.

Lemma list_all_pipelines_empty_filter_witness :
  (∃ self st1,
     __init__ sample_world ["zzz"; EmptyString] initial = (Ok self, st1)
     ∧ list_pipelines (codepipeline self)
       = Ok (PDict {["pipelines" := PList (entry <$> sample_names)]})
     ∧ ∃ st', list_all_pipelines self initial = (Ok sample_names, st'))
  ∧ EmptyString ∈ ["zzz"; EmptyString]
  ∧ pipelines_named (entry <$> sample_names) sample_names.
Proof.
  assert (Hnamed : pipelines_named (entry <$> sample_names) sample_names).
  { repeat constructor; eexists; split; reflexivity. }
  assert (Hin : EmptyString ∈ ["zzz"; EmptyString])
    by apply list_elem_of_further, list_elem_of_here.
  split; [|split; [exact Hin | exact Hnamed]].
  eexists _, _. split; [vm_compute; reflexivity|]. split; [reflexivity|].
  eapply (list_all_pipelines_empty_filter sample_world ["zzz"; EmptyString]
            initial _ _ _ _ sample_names initial);
    [vm_compute; reflexivity | exact Hin | reflexivity | reflexivity | exact Hnamed].
Defined.

(** ** One row for each pipeline that has run *)

Lemma get_latest_execution_value self name :
  returns (get_latest_execution self name) (latest_execution_value self name).
Proof.
  intros st. unfold latest_execution_value, get_latest_execution.
  unfold try_except, call, mbind, M_bind, emit, lift, print, mret, M_ret.
  destruct (list_pipeline_executions _ _ _) as [response|e]; [|by eexists].
  cbn [fst snd].
  destruct (get response _ _) as [executions|e]; [|by eexists].
  destruct (truthy executions); [|by eexists].
  destruct (getitem0 executions); by eexists.
Qed.

Lemma pipeline_row_has_latest w self name st made st' :
  pipeline_row w self name st = (Ok made, st') →
  match made with
  | Some row => pipeline row = name ∧ has_latest_execution self name = true
  | None => has_latest_execution self name = false
  end.
Proof.
  unfold pipeline_row, has_latest_execution. intros H.
  destruct (get_latest_execution_value self name st) as [st1 H1].
  rewrite (M_bind_ok _ _ _ _ _ H1) in H.
  destruct (truthy (latest_execution_value self name)); cbn [negb] in H.
  - destruct made as [row|].
    + split; [|done].
      repeat (apply M_bind_inv_ok in H as (? & ? & _ & H)).
      by apply mret_inv_ok in H as [[= ->] _].
    + repeat (apply M_bind_inv_ok in H as (? & ? & _ & H)).
      by apply mret_inv_ok in H as [[=] _].
  - by apply mret_inv_ok in H as [-> _].
Qed.

Lemma collect_rows_names w self names table_data st rows st' :
  collect_rows w self names table_data st = (Ok rows, st') →
  pipeline <$> rows
  = ((pipeline <$> table_data) ++ List.filter (has_latest_execution self) names)%list.
Proof.
  revert table_data st. induction names as [|name names IH]; intros table_data st H.
  - apply mret_inv_ok in H as [-> _]. by rewrite app_nil_r.
  - cbn [collect_rows] in H.
    apply M_bind_inv_ok in H as (made & st1 & Hmade & H).
    apply pipeline_row_has_latest in Hmade. rewrite (IH _ _ H).
    cbn [List.filter]. destruct made as [row|].
    + destruct Hmade as [Hname ->]. rewrite fmap_app, <- app_assoc. cbn.
      by rewrite Hname.
    + by rewrite Hmade.
Qed.

(** X13.  When a run completes, its table has exactly one row for each
    kept pipeline that has a latest execution, a name listed twice giving
    two rows: the names of the rows are, up to the order, the kept names
    whose latest execution is there.  The table is printed even when this
    leaves it empty. *)
Theorem monitor_pipelines_one_row_each w self names st st' :
  returns (list_all_pipelines self) names →
  names ≠ [] →
  monitor_pipelines w self st = (Ok tt, st') →
  ∃ rows,
    tables (trace st') = (tables (trace st) ++ [rows])%list
    ∧ pipeline <$> rows ≡ₚ List.filter (has_latest_execution self) names.
Proof.
  intros Hnames Hne Hrun. rewrite monitor_pipelines_banner in Hrun.
  set (st0 := {| ticks := S _; trace := _ |}) in Hrun.
  destruct (Hnames st0) as [st1 H1]. rewrite (M_bind_ok _ _ _ _ _ H1) in Hrun.
  destruct names as [|name names]; [done|].
  apply M_bind_inv_ok in Hrun as (table_data & st2 & Hrows & Hrun).
  exists (sort_rows table_data). split.
  - unfold mbind, M_bind, print, emit in Hrun. cbn in Hrun.
    injection Hrun as <-. cbn [trace]. rewrite !tables_snoc, app_nil_r.
    rewrite (quiet_collect_rows _ _ _ _ _ _ _ Hrows).
    rewrite (quiet_list_all_pipelines _ _ _ _ H1).
    unfold st0. cbn [trace]. by rewrite tables_banner.
  - rewrite sort_rows_perm. by rewrite (collect_rows_names _ _ _ _ _ _ _ Hrows).
Qed.

Lemma monitor_pipelines_one_row_each_witness :
  returns (list_all_pipelines sample_monitor) ["kulu-web"; "Kulu-API"; "kulu-batch"]
  ∧ ["kulu-web"; "Kulu-API"; "kulu-batch"] ≠ []
  ∧ ∃ st',
      monitor_pipelines sample_world sample_monitor initial = (Ok tt, st')
      ∧ ∃ rows,
          tables (trace st') = [rows]
          ∧ pipeline <$> rows ≡ₚ ["kulu-web"; "Kulu-API"].
Proof.
  assert (Hnames : returns (list_all_pipelines sample_monitor)
                     ["kulu-web"; "Kulu-API"; "kulu-batch"])
    by (intros st; eexists; reflexivity).
  split; [exact Hnames|]. split; [discriminate|].
  destruct (monitor_pipelines sample_world sample_monitor initial)
    as [r st'] eqn:Hrun.
  assert (Hr : r = Ok tt) by (vm_compute in Hrun; by injection Hrun as <- _).
  subst r. exists st'. split; [reflexivity|].
  exact (monitor_pipelines_one_row_each sample_world sample_monitor _ initial st'
           Hnames ltac:(discriminate) Hrun).
Defined.

(** ** The monitor [__init__] builds *)

Lemma lower_char_idempotent c : lower_char (lower_char c) = lower_char c.
Proof. by destruct c as [[] [] [] [] [] [] [] []]. Qed.

Lemma lower_idempotent s : lower (lower s) = lower s.
Proof.
  induction s as [|c s IH]; [done|]. cbn [lower].
  by rewrite lower_char_idempotent, IH.
Qed.

(** X14.  A monitor that [__init__] returns holds the three credentials
    of the environment, none of them missing or empty; its region is the
    one of the environment, even empty, and eu-west-1 when the variable is
    unset; its client was created for these; and its filters are in lower
    case: as many as were given, each unchanged by a further lowering. *)
Theorem init_postcondition w filters st self st' :
  __init__ w filters st = (Ok self, st') →
  aws_access_key_id self = environ w !! "AWS_ACCESS_KEY_ID"
  ∧ aws_secret_access_key self = environ w !! "AWS_SECRET_ACCESS_KEY"
  ∧ aws_session_token self = environ w !! "AWS_SESSION_TOKEN"
  ∧ ¬ missing (aws_access_key_id self)
  ∧ ¬ missing (aws_secret_access_key self)
  ∧ ¬ missing (aws_session_token self)
  ∧ aws_region self = default "eu-west-1" (environ w !! "AWS_REGION")
  ∧ boto3_client w "codepipeline" (aws_access_key_id self)
      (aws_secret_access_key self) (aws_session_token self) (aws_region self)
    = Ok (codepipeline self)
  ∧ trace st' = (trace st ++ [ClientCreated "codepipeline" (aws_region self)])%list
  ∧ length (name_filters self) = length filters
  ∧ lower <$> name_filters self = name_filters self.
Proof.
  unfold __init__. cbn [forallb]. rewrite andb_true_r.
  destruct (getenv_truthy (environ w !! "AWS_ACCESS_KEY_ID")) eqn:H1; [|done].
  destruct (getenv_truthy (environ w !! "AWS_SECRET_ACCESS_KEY")) eqn:H2; [|done].
  destruct (getenv_truthy (environ w !! "AWS_SESSION_TOKEN")) eqn:H3; [|done].
  cbn [andb negb]. unfold mbind, M_bind, lift.
  destruct (boto3_client _ _ _ _ _ _) as [client|e] eqn:Hclient; [|done].
  cbn. intros [= <- <-]. cbn.
  repeat split; try done.
  - rewrite <- getenv_truthy_spec. congruence.
  - rewrite <- getenv_truthy_spec. congruence.
  - rewrite <- getenv_truthy_spec. congruence.
  - by rewrite length_fmap.
  - rewrite <- list_fmap_compose. apply list_fmap_ext. intros _ f _. cbn.
    apply lower_idempotent.
Qed.

Lemma init_postcondition_witness :
  ∃ self st',
    __init__ sample_world ["KULU"; "Web"] initial = (Ok self, st')
    ∧ aws_region self = "eu-west-1"
    ∧ name_filters self = ["kulu"; "web"]
    ∧ lower <$> name_filters self = name_filters self.
Proof.
  destruct (__init__ sample_world ["KULU"; "Web"] initial) as [r st'] eqn:Hrun.
  assert (Hok : ∃ self, r = Ok self
                        ∧ name_filters self = ["kulu"; "web"]).
  { vm_compute in Hrun. injection Hrun as <- _. by eexists. }
  destruct Hok as (self & -> & Hfilters).
  destruct (init_postcondition _ _ _ _ _ Hrun)
    as (_ & _ & _ & _ & _ & _ & Hregion & _ & _ & _ & Hlower).
  exists self, st'. split; [reflexivity|]. split; [|split; [exact Hfilters | exact Hlower]].
  rewrite Hregion. reflexivity.
Defined.

(** ** The kept names follow the listing *)

Lemma filter_sublist {A} (f : A → bool) (l : list A) : sublist (List.filter f l) l.
Proof.
  induction l as [|x l IH]; [constructor|]. cbn.
  destruct (f x); by constructor.
Qed.

(** X15.  The names [list_all_pipelines] keeps are a sub-sequence of the
    names the service lists: in the order of the listing, a name listed
    twice and kept being kept twice; and no more calls are made for them
    than the one listing. *)
Theorem list_all_pipelines_sublist self response entries names st kept st' :
  list_pipelines (codepipeline self) = Ok (PDict response) →
  response !! "pipelines" = Some (PList entries) →
  pipelines_named entries names →
  list_all_pipelines self st = (Ok kept, st') →
  sublist kept names
  ∧ (∀ name, matches self name →
             List.count_occ string_dec kept name
             = List.count_occ string_dec names name)
  ∧ api_calls (trace st') = (api_calls (trace st) ++ [("list_pipelines", None)])%list.
Proof.
  intros Hcall Hresp Hnames.
  rewrite (list_all_pipelines_named _ _ _ _ _ Hcall Hresp Hnames).
  intros [= <- <-]. split; [apply filter_sublist|]. split.
  - intros name (f & Hf & Hocc).
    assert (Hkeep : existsb (λ f, contains f (lower name)) (name_filters self) = true).
    { apply existsb_exists. exists f. split; [by apply list_elem_of_In|].
      by apply contains_spec. }
    clear Hnames. induction names as [|n names IH]; [done|].
    cbn [List.filter List.count_occ].
    destruct (string_dec n name) as [->|Hn].
    + rewrite Hkeep. cbn [List.count_occ].
      destruct (string_dec name name); [|done]. by rewrite IH.
    + destruct (existsb (λ f, contains f (lower n)) (name_filters self));
        [|exact IH].
      cbn [List.count_occ]. destruct (string_dec n name); [done | exact IH].
  - cbn [trace]. rewrite api_calls_app. done.
Qed.

Lemma list_all_pipelines_sublist_witness :
  list_pipelines (codepipeline sample_monitor)
  = Ok (PDict {["pipelines" := PList (entry <$> sample_names)]})
  ∧ pipelines_named (entry <$> sample_names) sample_names
  ∧ ∃ st',
      list_all_pipelines sample_monitor initial
      = (Ok ["kulu-web"; "Kulu-API"; "kulu-batch"], st')
      ∧ sublist ["kulu-web"; "Kulu-API"; "kulu-batch"] sample_names.
Proof.
  assert (Hnamed : pipelines_named (entry <$> sample_names) sample_names).
  { repeat constructor; eexists; split; reflexivity. }
  split; [reflexivity|]. split; [exact Hnamed|].
  eexists. split; [reflexivity|].
  exact (proj1 (list_all_pipelines_sublist sample_monitor _ _ sample_names
                  initial _ _ eq_refl eq_refl Hnamed eq_refl)).
Defined.

(** ** The branch is never blank *)

Lemma scan_actions_truthy actions branch :
  scan_actions actions = Ok (Some branch) → truthy branch = true.
Proof.
  induction actions as [|action actions IH]; [done|].
  cbn [scan_actions].
  destruct (get action "configuration" _) as [configuration|]; [|done]. cbn.
  destruct (get configuration "BranchName" _) as [found|]; [|done]. cbn.
  destruct (truthy found) eqn:E; [by intros [= <-] | exact IH].
Qed.

Lemma scan_stages_truthy stages branch :
  scan_stages stages = Ok branch → truthy branch = true.
Proof.
  induction stages as [|stage stages IH]; [by intros [= <-]|].
  cbn [scan_stages].
  destruct (get stage "name" _) as [name|]; [|done]. cbn.
  destruct (lower_method name) as [lowered|]; [|done]. cbn.
  destruct (String.eqb lowered "source"); [|exact IH].
  destruct (get stage "actions" _ ≫= iter) as [actions|]; [|done]. cbn.
  destruct (scan_actions actions) as [[found|]|] eqn:E; [|exact IH|done].
  cbn. intros [= <-]. by eapply scan_actions_truthy.
Qed.

(** X16.  Whatever the service answers, [get_pipeline_branch] returns a
    value that is not empty: a branch name that passed the test of the
    loop, or Unknown.  The Branch column is never blank. *)
Theorem get_pipeline_branch_never_blank self name st branch st' :
  get_pipeline_branch self name st = (Ok branch, st') →
  truthy branch = true.
Proof.
  unfold get_pipeline_branch, try_except, call, mbind, M_bind, emit, lift,
    print, mret, M_ret.
  destruct (get_pipeline _ _) as [response|e]; [|by intros [= <- _]].
  cbn [fst snd].
  destruct (get response _ _) as [pipeline|e]; [|by intros [= <- _]].
  destruct (result_bind _ _ _ _) as [stages|e]; [|by intros [= <- _]].
  destruct (scan_stages stages) as [found|e] eqn:E; [|by intros [= <- _]].
  intros [= <- _]. by eapply scan_stages_truthy.
Qed.

Lemma get_pipeline_branch_never_blank_witness :
  ∃ st',
    get_pipeline_branch sample_monitor "kulu-web" initial = (Ok (PStr "main"), st')
    ∧ truthy (PStr "main") = true.
Proof.
  destruct (get_pipeline_branch sample_monitor "kulu-web" initial)
    as [r st'] eqn:Hrun.
  assert (Hr : r = Ok (PStr "main")) by (vm_compute in Hrun; by injection Hrun as <- _).
  subst r. exists st'. split; [reflexivity|].
  exact (get_pipeline_branch_never_blank _ _ _ _ _ Hrun).
Defined.

(** ** The width of a date *)

Lemma pad_2_digits n :
  (0 ≤ n < 100)%Z → ∃ a b, pad 2 n = String a (String b EmptyString).
Proof.
  intros Hn.
  assert (Hall : forallb (λ k, match pad 2 (Z.of_nat k) with
                               | String _ (String _ EmptyString) => true
                               | _ => false
                               end) (seq 0 100) = true)
    by (vm_compute; reflexivity).
  rewrite forallb_forall in Hall.
  specialize (Hall (Z.to_nat n)). rewrite Z2Nat.id in Hall by lia.
  destruct (pad 2 n) as [|a [|b [|]]]; try (by eexists _, _);
    exfalso; (assert (false = true) as [=]); apply Hall, in_seq; lia.
Qed.

Lemma year_4_digits n :
  (1000 ≤ n < 10000)%Z →
  ∃ a b c d, str_of_int n = String a (String b (String c (String d EmptyString))).
Proof.
  intros Hn.
  assert (Hall : forallb (λ k, match str_of_int (1000 + Z.of_nat k) with
                               | String _ (String _ (String _ (String _ EmptyString))) =>
                                   true
                               | _ => false
                               end) (seq 0 (Z.to_nat 9000)) = true)
    by (vm_compute; reflexivity).
  rewrite forallb_forall in Hall.
  specialize (Hall (Z.to_nat (n - 1000))).
  replace (1000 + Z.of_nat (Z.to_nat (n - 1000)))%Z with n in Hall by lia.
  destruct (str_of_int n) as [|a [|b [|c [|d [|]]]]]; try (by eexists _, _, _, _);
    exfalso; (assert (false = true) as [=]); apply Hall, in_seq; lia.
Qed.

(** X17.  For a datetime of the years 1000 to 9999, [format_date] gives
    16 characters: two digits of the day, a slash, two of the month, a
    slash, four of the year, a space, two of the hour, a colon, two of the
    minute.  The Last Run column has one width. *)
Theorem format_date_width d :
  (1000 ≤ year d < 10000)%Z → (1 ≤ month d ≤ 12)%Z → (1 ≤ day d ≤ 31)%Z →
  (0 ≤ hour d < 24)%Z → (0 ≤ minute d < 60)%Z →
  ∃ out,
    format_date (PDatetime d) = Ok out
    ∧ String.length out = 16
    ∧ String.get 2 out = Some "/"%char
    ∧ String.get 5 out = Some "/"%char
    ∧ String.get 10 out = Some " "%char
    ∧ String.get 13 out = Some ":"%char.
Proof.
  intros Hy Hmo Hd Hh Hmi. eexists. split; [reflexivity|].
  unfold strftime_dmY_HM.
  destruct (pad_2_digits (day d) ltac:(lia)) as (d1 & d2 & ->).
  destruct (pad_2_digits (month d) ltac:(lia)) as (m1 & m2 & ->).
  destruct (year_4_digits (year d) ltac:(lia)) as (y1 & y2 & y3 & y4 & ->).
  destruct (pad_2_digits (hour d) ltac:(lia)) as (h1 & h2 & ->).
  destruct (pad_2_digits (minute d) ltac:(lia)) as (n1 & n2 & ->).
  by repeat split.
Qed.

Lemma format_date_width_witness :
  (1000 ≤ year (on_1_march 9 5 0 None) < 10000)%Z
  ∧ ∃ out,
      format_date (PDatetime (on_1_march 9 5 0 None)) = Ok out
      ∧ String.length out = 16.
Proof.
  split; [cbn; lia|].
  destruct (format_date_width (on_1_march 9 5 0 None))
    as (out & Hout & Hlen & _); cbn; try lia.
  by exists out.
Defined.

(** ** Whole seconds *)

(** Below [2^34] seconds (some 544 years) the float holds the seconds
    to less than a microsecond of error, and its whole part is the whole
    part of the exact quotient. *)
Lemma int_true_divide_exact a :
  (0 ≤ a < 1000000 * 2 ^ 34)%Z →
  int_true_divide a 1000000 = (a / 1000000)%Z.
Proof.
  intros [Ha Hlt]. unfold int_true_divide.
  change (Z.log2 1000000) with 19%Z.
  set (e0 := (Z.log2 a - 19)%Z).
  set (e := if (_ <? _)%Z then _ else _).
  assert (He : (e ≤ 33)%Z).
  { destruct (decide (a = 0%Z)) as [->|Hne].
    - subst e e0. by vm_compute.
    - pose proof (Z.log2_spec a ltac:(lia)) as [Hlo Hhi].
      assert (Hlog : (Z.log2 a < 54)%Z).
      { apply Z.log2_lt_pow2; [lia|]. change (2 ^ 54)%Z with (1048576 * 2 ^ 34)%Z. lia. }
      subst e. destruct (_ <? _)%Z eqn:E; [lia|].
      apply Z.ltb_ge in E.
      destruct (decide (e0 ≤ 33)%Z) as [|Hbig]; [done|].
      assert (e0 = 34)%Z as Heq by lia.
      rewrite Heq, (Z.max_l 0 (- (34))), (Z.max_r 0 34) in E by lia.
      change (2 ^ 0)%Z with 1%Z in E. lia. }
  clearbody e. clear e0.
  assert (E : (52 <=? e)%Z = false) by (apply Z.leb_gt; lia).
  rewrite E, (Z.max_r 0 (52 - e)), (Z.max_l 0 (e - 52)) by lia.
  change (2 ^ 0)%Z with 1%Z. rewrite Z.mul_1_r.
  set (P := (2 ^ (52 - e))%Z).
  assert (HP : (524288 ≤ P)%Z).
  { change 524288%Z with (2 ^ 19)%Z. subst P. apply Z.pow_le_mono_r; lia. }
  pose proof (round_half_even_bounds (a * P) 1000000 ltac:(lia)) as Hm.
  pose proof (Z.div_mod a 1000000 ltac:(lia)) as Hdiv.
  pose proof (Z.mod_pos_bound a 1000000 ltac:(lia)) as Hmod.
  symmetry. apply (Z.div_unique_pos _ _ _ (round_half_even (a * P) 1000000 - a / 1000000 * P)); nia.
Qed.

(** X18.  For a span of less than [2^34] seconds (some 544 years), the
    whole seconds [format_duration] works from are the exact seconds of
    the span, rounded towards zero: going through a float loses nothing. *)
Theorem int_total_seconds_exact td :
  (Z.abs td < 1000000 * 2 ^ 34)%Z →
  int_total_seconds td = Z.quot td 1000000.
Proof.
  intros Htd. unfold int_total_seconds.
  rewrite int_true_divide_exact by lia.
  rewrite Z.quot_div by lia. change (Z.sgn 1000000) with 1%Z.
  change (Z.abs 1000000) with 1000000%Z. lia.
Qed.

Lemma int_total_seconds_exact_witness :
  (Z.abs (-125999999) < 1000000 * 2 ^ 34)%Z
  ∧ int_total_seconds (-125999999)%Z = (-125)%Z.
Proof.
  assert (Hsmall : (Z.abs (-125999999) < 1000000 * 2 ^ 34)%Z)
    by (vm_compute; reflexivity).
  split; [exact Hsmall|].
  rewrite (int_total_seconds_exact _ Hsmall). reflexivity.
Defined.
